(** * fitting_text_distance: weighted vectorization and Jensen-Shannon distance

    A shallow embedding of
    - [fitting_vectorization/vector_from_iterable.py],
    - [fitting_vectorization/vectorization.py],
    - [distance/distribution.py], [distance/abstract_distance.py] and
      [distance/jensen_shannon_distance.py],
    - the functions on texts of [fitting_text_distance.py].

    Conventions.
    - A Python float is a real number.  The operations of numpy that leave
      the reals (a division by zero, the logarithm of zero, the square root
      of a negative number) return a non-finite outcome, [NonFinite nan] or
      [NonFinite inf], at the operation that produces it; it is not
      propagated further through later arithmetic.
    - Real arithmetic is exact and that of Python is rounded.  Where the
      rounding decides the outcome, at the distance of a vector to itself,
      the code is read a second time on binary64 floats, in the module
      [Binary64]: there [nan] and the infinities are floats like the
      others.
    - A Python exception is the outcome [Raise e].
    - A bag is a tuple of items, a [list]; a vector is a [list R].
    - A text is the list of its characters, which are code points below
      256.
    - A [dict] given by the caller is a [gmap]; it is iterated in the order
      of [map_to_list] (Python iterates in insertion order; no statement
      below depends on that order).  The dict [index_map], whose values are
      the positions [0, 1, ...] in insertion order, is the list of its keys
      in that order. *)

From Stdlib Require Import Floats Reals Lra Ascii.
From stdpp Require Import gmap strings list.

#[local] Open Scope R_scope.

(** ** Outcomes of Python code *)

Module Py.

Inductive exception :=
  ValueError | ZeroDivisionError | IndexError | KeyError | NotImplementedError.

Inductive nonfinite := nan | inf.

Inductive outcome (A : Type) : Type :=
| Val (a : A)
| Raise (e : exception)
| NonFinite (n : nonfinite).
Arguments Val {A} a.
Arguments Raise {A} e.
Arguments NonFinite {A} n.

Definition bind {A B} (o : outcome A) (k : A → outcome B) : outcome B :=
  match o with
  | Val a => k a
  | Raise e => Raise e
  | NonFinite n => NonFinite n
  end.

(** [for x in l: acc = body(x, acc)], stopping at the first failure. *)
Fixpoint for_each {A S} (body : A → S → outcome S) (l : list A) (acc : S)
  : outcome S :=
  match l with
  | [] => Val acc
  | x :: l' => bind (body x acc) (for_each body l')
  end.

(** [[f(x) for x in l]], stopping at the first failure. *)
Fixpoint comprehension {A B} (f : A → outcome B) (l : list A)
  : outcome (list B) :=
  match l with
  | [] => Val []
  | x :: l' =>
      bind (f x) (λ y, bind (comprehension f l') (λ ys, Val (y :: ys)))
  end.

(** A Python iterable handed to the library: a plain collection, or a
    [dict] from keys to floats ([isinstance(iterable, dict)]). *)
Inductive iterable (K : Type) `{Countable K} : Type :=
| Coll (l : list K)
| Dict (d : gmap K R).
Arguments Coll {K _ _} l.
Arguments Dict {K _ _} d.

(** [iter(it)]: the elements of a collection, the keys of a dict. *)
Definition iter `{Countable K} (it : iterable K) : list K :=
  match it with
  | Coll l => l
  | Dict d => (map_to_list d).*1
  end.

Definition isinstance_dict `{Countable K} (it : iterable K) : bool :=
  match it with Coll _ => false | Dict _ => true end.

(** [a / b] on Python integers. *)
Definition truediv (a b : nat) : outcome R :=
  match b with
  | O => Raise ZeroDivisionError
  | S _ => Val (INR a / INR b)
  end.

End Py.
Export Py.

#[global] Instance outcome_ret : MRet outcome := @Val.
#[global] Instance outcome_bind : MBind outcome := λ A B k o, Py.bind o k.

(** ** numpy *)

Module np.

#[global] Instance R_eq_dec : EqDecision R := Req_dec_T.

(** [x / y] on floats: [0/0] is [nan], [x/0] is infinite. *)
Definition divide (x y : R) : outcome R :=
  if decide (y = 0) then
    if decide (x = 0) then NonFinite nan else NonFinite inf
  else Val (x / y).

(** [np.log]: minus infinity at [0], [nan] below. *)
Definition log (x : R) : outcome R :=
  if decide (x = 0) then NonFinite inf
  else if Rlt_dec x 0 then NonFinite nan
  else Val (ln x).

(** [np.sqrt]: [nan] below [0]. *)
Definition sqrt (x : R) : outcome R :=
  if Rlt_dec x 0 then NonFinite nan else Val (R_sqrt.sqrt x).

(** [np.zeros(n)] *)
Definition zeros (n : nat) : list R := replicate n 0.

End np.

(** ** collections.Counter *)

Section FirstSeen.
Context `{EqDecision K}.

(** The distinct elements of [l], in the order of their first
    occurrence: the keys of [dict.fromkeys(l)], of [Counter(l)]. *)
Definition first_seen_step (seen : list K) (k : K) : list K :=
  if decide (k ∈ seen) then seen else seen ++ [k].

Definition first_seen (l : list K) : list K := foldl first_seen_step [] l.

(** [Counter(l).items()] *)
Definition Counter_items (l : list K) : list (K * nat) :=
  (λ k, (k, count_occ (decide_rel (=)) l k)) <$> first_seen l.

End FirstSeen.

(** ** tools/matrix_operations.py *)

Module MatrixOperations.

(** A matrix is the list of its rows. *)
Abbreviation matrix := (list (list R)).

Definition Rsum (v : list R) : R := foldr Rplus 0 v.

(** Modelled from the spec: [scalar_product] of tools/matrix_operations.py
    is missing; the moment of a distribution is the "sum of
    self.probabilities[i] * self.values[i] ** order", so the scalar product
    is the sum of the coefficient-wise products. *)
Definition scalar_product (u v : list R) : R := Rsum (zip_with Rmult u v).

(** Modelled from the spec: [coefficient_wise_power_from_vector] of
    tools/matrix_operations.py is missing; it raises each coefficient to
    the power [order]. *)
Definition coefficient_wise_power_from_vector (v : list R) (order : nat)
  : list R :=
  (λ x, x ^ order) <$> v.

(** Modelled from the spec: [concatenate_vectors] of
    tools/matrix_operations.py is missing; the values of the two halves
    are "concatenated". *)
Definition concatenate_vectors (u v : list R) : list R := u ++ v.

(** Modelled from the spec: [matrix_from_bags_and_index_maps] of
    tools/matrix_operations.py is missing; it builds the "item-by-bag
    matrix M where M[i,j] = multiplicity of item i in bag j", the indices
    being those of the two index maps. *)
Definition matrix_from_bags_and_index_maps `{Countable Item}
    (bags : iterable (list Item)) (item_index_map : list Item)
    (bag_index_map : list (list Item)) : matrix :=
  (λ item, (λ bag, INR (count_occ (decide_rel (=)) bag item))
             <$> bag_index_map) <$> item_index_map.

(** Modelled from the spec: [dot_matrix_dot_products] of
    tools/matrix_operations.py is missing; "the output item-space vector
    equals the incidence matrix multiplied by the elementwise product of
    bag-indicator vector and bag weights, then elementwise-scaled by item
    weights". *)
Definition dot_matrix_dot_products (item_weights : list R) (m : matrix)
    (bag_weights vector : list R) : list R :=
  zip_with Rmult item_weights
    ((λ row, scalar_product row (zip_with Rmult bag_weights vector)) <$> m).

(** Modelled from the spec: [count_nonzero_entries_in_matrix_row] of
    tools/matrix_operations.py is missing; it is the "number of nonzero
    entries in M's row for that item". *)
Definition count_nonzero_entries_in_matrix_row (m : matrix) (row : nat)
  : nat :=
  length (filter (λ x, x ≠ 0) (default [] (m !! row))).

End MatrixOperations.
Export MatrixOperations.

(** ** fitting_vectorization/vector_from_dict.py and vector_from_iterable.py *)

Section VectorFromIterable.
Context `{Countable K}.

(** The attributes of a [VectorFromIterable]; the first two are inherited
    from [VectorFromDict]. *)
Record VectorFromIterable := {
  index_map : list K;
  silent : bool;
  weight_from_key_and_multiplicity : K → nat → R
}.

(** [index_map.get(key, None)]: the position of [key] among the keys. *)
Definition index_map_get (index_map : list K) (key : K) : option nat :=
  fst <$> list_find (λ k, k = key) index_map.

(** Modelled from the spec: [VectorFromDict.__init__] of
    fitting_vectorization/vector_from_dict.py is missing; the index map
    has "indices consecutive from 0, assigned in first-seen order of the
    initializing collection". *)
Definition VectorFromDict_init (initial_iterable : list K) (silent : bool)
  : list K * bool :=
  (first_seen initial_iterable, silent).

(** Modelled from the spec: [VectorFromDict.__call__] of
    fitting_vectorization/vector_from_dict.py is missing; it returns a
    "vector of length space.size()"; "the mapping's values are used
    directly as coefficients", each one added at the index of its key;
    "unknown keys either raise (if not silent) or are dropped".  The
    keyword [silent] defaults to the attribute.  [add_entry] is the body
    of the loop over the items of the dict. *)
Definition add_entry (index_map : list K) (silent : bool)
    (entry : K * R) (vector : list R) : outcome (list R) :=
  let '(key, value) := entry in
  match index_map_get index_map key with
  | Some index => Val (alter (λ x, x + value) index vector)
  | None => if silent then Val vector else Raise ValueError
  end.

Definition VectorFromDict_call (self : VectorFromIterable)
    (dictionary : gmap K R) (silent_kw : option bool) : outcome (list R) :=
  let silent := default (silent self) silent_kw in
  for_each (add_entry (index_map self) silent) (map_to_list dictionary)
    (np.zeros (length (index_map self))).

(** Modelled from the spec: [VectorFromDict.keys] of
    fitting_vectorization/vector_from_dict.py is missing; the keys of the
    index map. *)
Definition keys (self : VectorFromIterable) : list K := index_map self.

(** [VectorFromIterable.__init__] *)
Definition VectorFromIterable_init (initial_iterable : list K)
    (silent : bool) (weight_from_key_and_multiplicity : K → nat → R)
  : VectorFromIterable :=
  let '(index_map, silent) := VectorFromDict_init initial_iterable silent in
  {| index_map := index_map; silent := silent;
     weight_from_key_and_multiplicity := weight_from_key_and_multiplicity |}.

(** The dict comprehension of [VectorFromIterable.__call__]:
    [{key: weight(key, multiplicity)
      for key, multiplicity in Counter(iterable).items()}] *)
Definition weighted_counter (weight : K → nat → R) (l : list K) : gmap K R :=
  list_to_map
    ((λ '(key, multiplicity), (key, weight key multiplicity))
       <$> Counter_items l).

(** [VectorFromIterable.__call__] *)
Definition VectorFromIterable_call (self : VectorFromIterable)
    (it : iterable K) (silent : option bool)
    (weight_kw : option (K → nat → R)) : outcome (list R) :=
  let dictionary :=
    match it with
    | Dict d => d
    | Coll l =>
        let weight :=
          default (weight_from_key_and_multiplicity self) weight_kw in
        weighted_counter weight l
    end in
  VectorFromDict_call self dictionary silent.

(** An iterable without the keys that are not among [known]. *)
Definition known_only (known : list K) (it : iterable K) : iterable K :=
  match it with
  | Coll l => Coll (filter (λ key, key ∈ known) l)
  | Dict d => Dict (filter (λ entry, entry.1 ∈ known) d)
  end.

End VectorFromIterable.
Arguments VectorFromIterable K : clear implicits.

(** ** fitting_vectorization/vectorization.py *)

Section Vectorization.
Context `{Countable Item}.

(** A bag is an immutable iterable of items: a tuple. *)
Abbreviation Bag := (list Item).

(** The attributes of a [Vectorization].  The two weight vectors are
    [None] in [__init__] until their initialiser has run; no method reads
    them before, and the empty vector stands for [None] there. *)
Record Vectorization := {
  bag_vector_representation : VectorFromIterable Bag;
  item_vector_representation : VectorFromIterable Item;
  item_bag_matrix : matrix;
  bag_weights_vector : list R;
  item_weights_vector : list R
}.

(** [vector[index]] on a numpy array. *)
Definition getitem (vector : list R) (index : nat) : outcome R :=
  match vector !! index with
  | Some x => Val x
  | None => Raise IndexError
  end.

(** [Vectorization.__call__] *)
Definition call (self : Vectorization) (bags : iterable Bag)
  : outcome (list R) :=
  vector ← VectorFromIterable_call (bag_vector_representation self) bags
             None None;
  mret (dot_matrix_dot_products (item_weights_vector self)
          (item_bag_matrix self) (bag_weights_vector self) vector).

Definition items (self : Vectorization) : list Item :=
  keys (item_vector_representation self).

Definition bags (self : Vectorization) : list Bag :=
  keys (bag_vector_representation self).

(** [set_bag_weights(self, bag_to_weight, silent=False)] *)
Definition set_bag_weights_silent_default : bool := false.

Definition set_bag_weights (self : Vectorization)
    (bag_to_weight : iterable Bag) (silent : bool) : outcome Vectorization :=
  vector ← VectorFromIterable_call (bag_vector_representation self)
             bag_to_weight (Some silent) None;
  mret {| bag_vector_representation := bag_vector_representation self;
          item_vector_representation := item_vector_representation self;
          item_bag_matrix := item_bag_matrix self;
          bag_weights_vector := vector;
          item_weights_vector := item_weights_vector self |}.

(** [set_item_weights(self, item_to_weight, silent=True)] *)
Definition set_item_weights_silent_default : bool := true.

Definition set_item_weights (self : Vectorization)
    (item_to_weight : iterable Item) (silent : bool)
  : outcome Vectorization :=
  vector ← VectorFromIterable_call (item_vector_representation self)
             item_to_weight (Some silent) None;
  mret {| bag_vector_representation := bag_vector_representation self;
          item_vector_representation := item_vector_representation self;
          item_bag_matrix := item_bag_matrix self;
          bag_weights_vector := bag_weights_vector self;
          item_weights_vector := vector |}.

Definition get_bag_weight (self : Vectorization) (bag : Bag) : outcome R :=
  match index_map_get (index_map (bag_vector_representation self)) bag with
  | None => Raise ValueError
  | Some index => getitem (bag_weights_vector self) index
  end.

Definition get_item_weight (self : Vectorization) (item : Item)
  : outcome R :=
  match index_map_get (index_map (item_vector_representation self)) item with
  | None => Raise ValueError
  | Some index => getitem (item_weights_vector self) index
  end.

(** [index_map[key]] on a dict. *)
Definition index_map_getitem `{Countable K} (index_map : list K) (key : K)
  : outcome nat :=
  match index_map_get index_map key with
  | Some index => Val index
  | None => Raise KeyError
  end.

Definition count_bags_containing_item (self : Vectorization) (item : Item)
  : outcome nat :=
  if decide (item ∉ items self) then Val 0%nat
  else
    row ← index_map_getitem (index_map (item_vector_representation self))
            item;
    mret (count_nonzero_entries_in_matrix_row (item_bag_matrix self) row).

Definition tfidf_bag_weights (self : Vectorization)
  : outcome (gmap Bag R) :=
  pairs ← comprehension
             (λ bag, weight ← truediv 1 (length bag); mret (bag, weight))
             (bags self);
  mret (list_to_map pairs).

Definition log_of_ratio_zero_if_null_denominator (numerator denominator : nat)
  : outcome R :=
  if decide (denominator = 0%nat) then Val 0
  else ratio ← truediv numerator denominator; np.log ratio.

Definition tfidf_item_weights (self : Vectorization)
  : outcome (gmap Item R) :=
  let number_of_bags := length (bags self) in
  pairs ← comprehension
             (λ item,
                count ← count_bags_containing_item self item;
                weight ← log_of_ratio_zero_if_null_denominator
                           number_of_bags count;
                mret (item, weight))
             (items self);
  mret (list_to_map pairs).

Definition initialize_bag_weights_vector (self : Vectorization)
    (bags : iterable Bag) (tfidf : bool) : outcome Vectorization :=
  bags ← (if negb (isinstance_dict bags) && tfidf
          then (weights ← tfidf_bag_weights self; mret (Dict weights))
          else Val bags);
  set_bag_weights self bags set_bag_weights_silent_default.

Definition initialize_item_weights_vector (self : Vectorization)
    (item_to_weight : option (iterable Item)) (tfidf : bool)
  : outcome Vectorization :=
  item_to_weight ←
    match item_to_weight with
    | None =>
        if tfidf then (weights ← tfidf_item_weights self; mret (Dict weights))
        else Val (Coll (items self))
    | Some item_to_weight => Val item_to_weight
    end;
  set_item_weights self item_to_weight set_item_weights_silent_default.

(** [Vectorization.__init__(self, bags, item_to_weight=None, tfidf=False)] *)
Definition init (bags : iterable Bag)
    (item_to_weight : option (iterable Item)) (tfidf : bool)
  : outcome Vectorization :=
  let bag_vector_representation :=
    VectorFromIterable_init (iter bags) false (λ _ _, 1) in
  let item_vector_representation :=
    VectorFromIterable_init (concat (iter bags)) true (λ _ _, 1) in
  let item_bag_matrix :=
    matrix_from_bags_and_index_maps bags
      (index_map item_vector_representation)
      (index_map bag_vector_representation) in
  let self :=
    {| bag_vector_representation := bag_vector_representation;
       item_vector_representation := item_vector_representation;
       item_bag_matrix := item_bag_matrix;
       bag_weights_vector := [];
       item_weights_vector := [] |} in
  self ← initialize_bag_weights_vector self bags tfidf;
  initialize_item_weights_vector self item_to_weight tfidf.

(** The [Vectorization] objects a program can hold: returned by
    [__init__], then changed by the two setters only. *)
Inductive built : Vectorization → Prop :=
| built_init bags item_to_weight tfidf self :
    init bags item_to_weight tfidf = Val self → built self
| built_set_bag_weights self bag_to_weight silent self' :
    built self →
    set_bag_weights self bag_to_weight silent = Val self' → built self'
| built_set_item_weights self item_to_weight silent self' :
    built self →
    set_item_weights self item_to_weight silent = Val self' → built self'.

(** The multiplicity of [item] in [bag], as a float. *)
Definition multiplicity (item : Item) (bag : Bag) : R :=
  INR (count_occ (decide_rel (=)) bag item).

(** The number of bags of the index space that contain [item]. *)
Definition containing (self : Vectorization) (item : Item) : nat :=
  length (filter (λ bag, item ∈ bag) (bags self)).

(** What [__init__] establishes and the setters keep. *)
Record invariant (self : Vectorization) : Prop := {
  inv_bag_silent : silent (bag_vector_representation self) = false;
  inv_item_silent : silent (item_vector_representation self) = true;
  inv_bag_unit :
    ∀ bag m,
      weight_from_key_and_multiplicity (bag_vector_representation self) bag m
      = 1;
  inv_item_unit :
    ∀ item m,
      weight_from_key_and_multiplicity (item_vector_representation self)
        item m = 1;
  inv_bags_NoDup : NoDup (bags self);
  inv_items_NoDup : NoDup (items self);
  inv_items_bags :
    ∀ item, item ∈ items self ↔ ∃ bag, bag ∈ bags self ∧ item ∈ bag;
  inv_matrix :
    item_bag_matrix self =
      (λ item, (λ bag, multiplicity item bag) <$> bags self)
        <$> items self;
  inv_bag_weights : length (bag_weights_vector self) = length (bags self);
  inv_item_weights : length (item_weights_vector self) = length (items self)
}.

End Vectorization.
Arguments Vectorization Item : clear implicits.

(** *** The examples of the docstring of [Vectorization] *)

(** [bags = [('x', 'y', 'x'), ('y', 'y', 'y'), ('x', 'x', 'y', 'y')]] *)
Definition docstring_bags : list (list string) :=
  [["x"; "y"; "x"]; ["y"; "y"; "y"]; ["x"; "x"; "y"; "y"]]%string.

(** [[bags[0], bags[1]]] *)
Definition docstring_query : iterable (list string) :=
  Coll (take 2 docstring_bags).

(** [Vectorization(bags)] *)
Definition docstring_unweighted : outcome (Vectorization string) :=
  init (Coll docstring_bags) None false.

(** [Vectorization(bags, item_to_weight={'x': 3, 'y': 7})] *)
Definition docstring_weighted : outcome (Vectorization string) :=
  init (Coll docstring_bags)
    (Some (Dict {[ "x"%string := 3; "y"%string := 7 ]})) false.

(** ** numpy arrays: coefficient-wise operations *)

Module ndarray.

(** [u op v] on two one-dimensional arrays: coefficient-wise when the
    lengths agree, broadcast when one array has length one, a
    [ValueError] otherwise. *)
Definition broadcast (op : R → R → R) (u v : list R) : outcome (list R) :=
  if decide (length u = length v) then Val (zip_with op u v)
  else
    match u, v with
    | [x], _ => Val (op x <$> v)
    | _, [y] => Val ((λ x, op x y) <$> u)
    | _, _ => Raise ValueError
    end.

Definition add := broadcast Rplus.
Definition subtract := broadcast Rminus.

(** [c * v] for a float [c]. *)
Definition scale (c : R) (v : list R) : list R := Rmult c <$> v.

(** [v / d] for a float [d]. *)
Definition divide_by (v : list R) (d : R) : outcome (list R) :=
  comprehension (λ x, np.divide x d) v.

End ndarray.

(** ** distance/distribution.py *)

Module Distribution.

Record Distribution := {
  values : list R;
  probabilities : list R;
  moments : gmap nat R
}.

(** [Distribution.__init__] *)
Definition init (values probabilities : list R) : outcome Distribution :=
  if decide (length values ≠ length probabilities) then Raise ValueError
  else Val {| values := values; probabilities := probabilities;
              moments := ∅ |}.

Definition get_moment (self : Distribution) (order : nat) : R :=
  scalar_product (probabilities self)
    (coefficient_wise_power_from_vector (values self) order).

Definition get_mean (self : Distribution) : R := get_moment self 1.

Definition get_variance (self : Distribution) : R :=
  get_moment self 2 - get_moment self 1 ^ 2.

End Distribution.

(** ** distance/abstract_distance.py *)

(** The two methods an inheritor of [AbstractDistance] overrides. *)
Class AbstractDistance := {
  distance : list R → list R → outcome R;
  first_partial_gradient : list R → list R → outcome (list R)
}.

(** [AbstractDistance.second_partial_gradient] *)
Definition second_partial_gradient `{AbstractDistance}
    (vector0 vector1 : list R) : outcome (list R) :=
  first_partial_gradient vector1 vector0.

(** The attribute [partial_gradients] set by [AbstractDistance.__init__]. *)
Definition partial_gradients `{AbstractDistance} :=
  (first_partial_gradient, second_partial_gradient).

(** ** distance/jensen_shannon_distance.py *)

Section JensenShannonDistance.

(** Modelled from the spec: [information_log_from_vector] of
    tools/matrix_operations.py is missing.  The spec gives its values as
    the logarithms "log(p0)", "log(mixture)" of the coefficients and names
    "zero-probability handling" without saying what is returned at zero:
    the coefficient-wise function is left open, with a finite value at
    every coefficient. *)
Variable information_log : R → R.

Definition information_log_from_vector (v : list R) : list R :=
  information_log <$> v.

(** Modelled from the spec: [probabilities_from_vector] of
    tools/matrix_operations.py is missing; each input is renormalized
    "dividing by its sum", which "fails or is undefined on the zero
    vector", to be treated as "an explicit precondition violation (raise a
    dedicated error)": a sum that is zero raises. *)
Definition probabilities_from_vector (v : list R) : outcome (list R) :=
  if decide (Rsum v = 0) then Raise ValueError
  else ndarray.divide_by v (Rsum v).

(** On reals the two halves of a coefficient add up to it; on floats they
    need not, see [Binary64.mixture_from_probabilities]. *)
Definition mixture_from_probabilities (probabilities0 probabilities1 : list R)
  : outcome (list R) :=
  ndarray.add (ndarray.scale 0.5 probabilities0)
              (ndarray.scale 0.5 probabilities1).

Definition jensen_shannon_distribution_from_probabilities
    (probabilities0 probabilities1 : list R)
  : outcome Distribution.Distribution :=
  mixture ← mixture_from_probabilities probabilities0 probabilities1;
  values0 ← ndarray.subtract (information_log_from_vector probabilities0)
                             (information_log_from_vector mixture);
  values1 ← ndarray.subtract (information_log_from_vector probabilities1)
                             (information_log_from_vector mixture);
  let values := concatenate_vectors values0 values1 in
  let probabilities :=
    concatenate_vectors (ndarray.scale 0.5 probabilities0)
                        (ndarray.scale 0.5 probabilities1) in
  Distribution.init values probabilities.

(** [JensenShannonDistance.__call__] *)
Definition JensenShannonDistance_call (vector0 vector1 : list R)
  : outcome R :=
  probabilities0 ← probabilities_from_vector vector0;
  probabilities1 ← probabilities_from_vector vector1;
  distribution ← jensen_shannon_distribution_from_probabilities
                   probabilities0 probabilities1;
  np.sqrt (Distribution.get_mean distribution).

(** [JensenShannonDistance.first_partial_gradient] *)
Definition JensenShannonDistance_first_partial_gradient
    (vector0 vector1 : list R) : outcome (list R) :=
  probabilities0 ← probabilities_from_vector vector0;
  probabilities1 ← probabilities_from_vector vector1;
  mixture ← mixture_from_probabilities probabilities0 probabilities1;
  difference ← ndarray.subtract (information_log_from_vector probabilities0)
                                (information_log_from_vector mixture);
  quarter ← ndarray.divide_by difference 4;
  d ← JensenShannonDistance_call vector0 vector1;
  ndarray.divide_by quarter d.


(** [entropy_from_probabilities] *)
Definition entropy_from_probabilities (probabilities : list R) : outcome R :=
  let values := Ropp <$> information_log_from_vector probabilities in
  distribution ← Distribution.init values probabilities;
  mret (Distribution.get_mean distribution).

#[local] Instance JensenShannonDistance : AbstractDistance := {|
  distance := JensenShannonDistance_call;
  first_partial_gradient := JensenShannonDistance_first_partial_gradient
|}.

End JensenShannonDistance.

(** ** distance/jensen_shannon_distance.py on binary64 floats

    The functions of the distance once more, on the floats of the machine:
    [float] is binary64 with its rounding to nearest, [nan] and the
    infinities are values and no operation fails. *)

Module Binary64.

(** [np.isfinite] *)
Definition isfinite (x : float) : bool :=
  match Prim2SF x with
  | S754_zero _ | S754_finite _ _ _ => true
  | S754_infinity _ | S754_nan => false
  end.

(** The floats from [2^-1021] on, infinity apart: the half of such a float
    is at least [2^-1022], the least normal float. *)
Definition half_is_normal (x : float) : bool :=
  (0x1p-1021 <=? x)%float && (x <? infinity)%float.

(** Zero and the floats above: multiplying them by [0.5] rounds nothing. *)
Definition half_is_zero_or_normal (x : float) : bool :=
  (x =? 0)%float || half_is_normal x.

(** The sum of the coefficients, added from left to right. *)
Definition sum (v : list float) : float := foldl PrimFloat.add 0%float v.

(** Modelled from the spec: [scalar_product] of tools/matrix_operations.py
    is missing; it is the sum of the coefficient-wise products, see
    [MatrixOperations.scalar_product]. *)
Definition scalar_product (u v : list float) : float :=
  sum (zip_with PrimFloat.mul u v).

(** [x ** order] for a natural number [order] *)
Fixpoint power (x : float) (order : nat) : float :=
  match order with
  | O => 1%float
  | S order' => (x * power x order')%float
  end.

(** Modelled from the spec: [coefficient_wise_power_from_vector] of
    tools/matrix_operations.py is missing; it raises each coefficient to
    the power [order]. *)
Definition coefficient_wise_power_from_vector (v : list float) (order : nat)
  : list float :=
  (λ x, power x order) <$> v.

(** Modelled from the spec: [concatenate_vectors] of
    tools/matrix_operations.py is missing; the values of the two halves
    are "concatenated". *)
Definition concatenate_vectors (u v : list float) : list float := u ++ v.

(** [u op v] on two one-dimensional arrays, as [ndarray.broadcast]. *)
Definition broadcast (op : float → float → float) (u v : list float)
  : outcome (list float) :=
  if decide (length u = length v) then Val (zip_with op u v)
  else
    match u, v with
    | [x], _ => Val (op x <$> v)
    | _, [y] => Val ((λ x, op x y) <$> u)
    | _, _ => Raise ValueError
    end.

(** [c * v] for a float [c]. *)
Definition scale (c : float) (v : list float) : list float :=
  PrimFloat.mul c <$> v.

(** distance/distribution.py; the moments are computed at each call. *)
Record Distribution := {
  values : list float;
  probabilities : list float
}.

(** [Distribution.__init__] *)
Definition Distribution_init (values probabilities : list float)
  : outcome Distribution :=
  if decide (length values ≠ length probabilities) then Raise ValueError
  else Val {| values := values; probabilities := probabilities |}.

Definition get_moment (self : Distribution) (order : nat) : float :=
  scalar_product (probabilities self)
    (coefficient_wise_power_from_vector (values self) order).

Definition get_mean (self : Distribution) : float := get_moment self 1.

Section JensenShannonDistance.

(** Modelled from the spec: [information_log_from_vector] of
    tools/matrix_operations.py is missing; the coefficient-wise function
    is left open, as on the reals. *)
Variable information_log : float → float.

Definition information_log_from_vector (v : list float) : list float :=
  information_log <$> v.

(** Modelled from the spec: [probabilities_from_vector] of
    tools/matrix_operations.py is missing; each coefficient is divided by
    the sum, and a sum that is zero raises. *)
Definition probabilities_from_vector (v : list float) : outcome (list float) :=
  let total := sum v in
  if (total =? 0)%float then Raise ValueError
  else Val ((λ x, x / total)%float <$> v).

Definition mixture_from_probabilities
    (probabilities0 probabilities1 : list float) : outcome (list float) :=
  broadcast PrimFloat.add (scale 0.5 probabilities0)
                          (scale 0.5 probabilities1).

Definition jensen_shannon_distribution_from_probabilities
    (probabilities0 probabilities1 : list float) : outcome Distribution :=
  mixture ← mixture_from_probabilities probabilities0 probabilities1;
  values0 ← broadcast PrimFloat.sub
              (information_log_from_vector probabilities0)
              (information_log_from_vector mixture);
  values1 ← broadcast PrimFloat.sub
              (information_log_from_vector probabilities1)
              (information_log_from_vector mixture);
  let values := concatenate_vectors values0 values1 in
  let probabilities :=
    concatenate_vectors (scale 0.5 probabilities0) (scale 0.5 probabilities1) in
  Distribution_init values probabilities.

(** [JensenShannonDistance.__call__]; [np.sqrt] is [nan] below zero. *)
Definition JensenShannonDistance_call (vector0 vector1 : list float)
  : outcome float :=
  probabilities0 ← probabilities_from_vector vector0;
  probabilities1 ← probabilities_from_vector vector1;
  distribution ← jensen_shannon_distribution_from_probabilities
                   probabilities0 probabilities1;
  mret (PrimFloat.sqrt (get_mean distribution)).

End JensenShannonDistance.

(** *** Two logarithms for the examples

    The logarithm of [m * 2^e], with [m] between one half and one, is
    [e * log 2 + 2 * atanh ((m - 1) / (m + 1))]; twenty terms of the series
    of [atanh] give it up to the rounding of the last digits. *)

Definition ln2 : float := 0x1.62e42fefa39efp-1%float.

Fixpoint atanh_series (terms : nat) (odd z2 power : float) : float :=
  match terms with
  | O => 0%float
  | S terms' =>
      (power / odd + atanh_series terms' (odd + 2) z2 (power * z2))%float
  end.

(** [np.log]: [nan] below zero, minus infinity at zero. *)
Definition log (x : float) : float :=
  if PrimFloat.is_nan x || (x <? 0)%float then PrimFloat.nan
  else if (x =? 0)%float then PrimFloat.neg_infinity
  else if PrimFloat.is_infinity x then PrimFloat.infinity
  else
    let '(m, e) := Z.frexp x in
    let z := ((m - 1) / (m + 1))%float in
    ((if (e <? 0)%Z then - (PrimFloat.of_uint63 (Uint63.of_Z (- e)) * ln2)
      else PrimFloat.of_uint63 (Uint63.of_Z e) * ln2)
     + 2 * atanh_series 20 1 (z * z) z)%float.

(** [np.log2] *)
Definition log2 (x : float) : float := (log x / ln2)%float.

End Binary64.

(** ** fitting_text_distance.py: the functions on texts *)

Section Factors.
Context {A : Type}.

(** [text[start:stop]] for [0 <= start <= stop]. *)
Definition slice (text : list A) (start stop : nat) : list A :=
  take (stop - start) (drop start text).

(** [range(start, stop)] *)
Definition range (start stop : Z) : list Z := seqZ start (stop - start).

(** [bag_of_factors_from_text(text, max_factor_length=None)]; both indices
    of every slice are non-negative. *)
Definition bag_of_factors_from_text (text : list A)
    (max_factor_length : option Z) : list (list A) :=
  let max_factor_length :=
    default (Z.of_nat (length text)) max_factor_length in
  start ← range 0 (Z.of_nat (length text));
  stop ← range (start + 1)
           (1 + Z.min (Z.of_nat (length text)) (start + max_factor_length));
  [slice text (Z.to_nat start) (Z.to_nat stop)].

End Factors.

(** [letter.lower()] on the characters that are code points below 256,
    the only ones of this development: the letters [A]-[Z] and the capital
    letters of Latin-1 ([À]-[Þ], the multiplication sign apart) are moved
    by 32, the others are kept.  The result is one character again, which
    beyond these code points it need not be. *)
Definition lower (letter : ascii) : ascii :=
  let code := N_of_ascii letter in
  if ((65 <=? code) && (code <=? 90)
      || (192 <=? code) && (code <=? 222) && negb (code =? 215))%N
  then ascii_of_N (code + 32)
  else letter.

Definition DEFAULT_MAX_FACTOR_LENGTH : Z := 5.

Definition DEFAULT_ALPHABET : list ascii :=
  String.list_ascii_of_string "abcdefghijklmnopqrstuvwxyz0123456789".

(** [clean_letter(letter, alphabet)]; for the one-character string
    [lower_letter], [in alphabet] is the membership of the character. *)
Definition clean_letter (letter : ascii) (alphabet : list ascii) : ascii :=
  let space := " "%char in
  let lower_letter := lower letter in
  if decide (lower_letter ∈ alphabet) then lower_letter else space.

(** [clean_text(text, alphabet)] *)
Definition clean_text (text : list ascii) (alphabet : list ascii)
  : list ascii :=
  (λ letter, clean_letter letter alphabet) <$> text.

(** * Properties *)

(** ** Outcomes *)

Lemma bind_Val {A B} (o : outcome A) (k : A → outcome B) b :
  o ≫= k = Val b → ∃ a, o = Val a ∧ k a = Val b.
Proof. destruct o; [by eexists|done..]. Qed.

Lemma comprehension_Val {A B} (f : A → outcome B) (h : A → B) (l : list A) :
  (∀ x, x ∈ l → f x = Val (h x)) → comprehension f l = Val (h <$> l).
Proof.
  induction l as [|x l IH]; intros Hf; simpl; [done|].
  rewrite Hf by (by apply elem_of_cons; left). simpl.
  rewrite IH; [done|]. intros y Hy. apply Hf. by apply elem_of_cons; right.
Qed.

(** [lra], once the list maps that [simpl] unfolded are folded back. *)
Ltac r_arith :=
  repeat match goal with
         | |- context [list_fmap ?A ?B ?f ?l] =>
             change (list_fmap A B f l) with (f <$> l)
         end;
  lra.

(** ** First-seen order *)

Section FirstSeenFacts.
Context `{EqDecision K}.
Implicit Types (l seen : list K) (k : K).

Lemma foldl_first_seen_NoDup l seen :
  NoDup seen → NoDup (foldl first_seen_step seen l).
Proof.
  revert seen. induction l as [|k l IH]; intros seen Hnd; simpl; [done|].
  apply IH. unfold first_seen_step. case_decide; [done|].
  apply NoDup_app. split_and!; [done| |apply NoDup_singleton].
  intros x Hx ->%list_elem_of_singleton. done.
Qed.

Lemma elem_of_foldl_first_seen l seen k :
  k ∈ foldl first_seen_step seen l ↔ k ∈ seen ∨ k ∈ l.
Proof.
  revert seen. induction l as [|k' l IH]; intros seen; simpl.
  - rewrite elem_of_nil. tauto.
  - rewrite IH, elem_of_cons. unfold first_seen_step. case_decide.
    + split; [tauto|]. intros [?|[->|?]]; auto.
    + rewrite elem_of_app, list_elem_of_singleton. tauto.
Qed.

Lemma first_seen_NoDup l : NoDup (first_seen l).
Proof. apply foldl_first_seen_NoDup, NoDup_nil_2. Qed.

Lemma elem_of_first_seen l k : k ∈ first_seen l ↔ k ∈ l.
Proof.
  unfold first_seen. rewrite elem_of_foldl_first_seen, elem_of_nil.
  tauto.
Qed.

Lemma count_occ_filter_known (P : K → Prop) `{∀ k, Decision (P k)}
    (l : list K) key :
  P key →
  count_occ (decide_rel (=)) (filter P l) key
  = count_occ (decide_rel (=)) l key.
Proof.
  intros HP. induction l as [|k l IH]; [done|].
  rewrite filter_cons. destruct (decide (P k)) as [|Hk]; simpl.
  - by rewrite IH.
  - rewrite IH. destruct (decide_rel eq k key) as [->|]; done.
Qed.

End FirstSeenFacts.

(** ** The index map and the loop of [VectorFromDict.__call__] *)

Section IndexMap.
Context `{Countable K}.
Implicit Types (m : list K) (k key : K) (i : nat).
Implicit Types (rep : VectorFromIterable K) (it : iterable K).

Lemma index_map_get_Some m key i :
  index_map_get m key = Some i → m !! i = Some key.
Proof.
  unfold index_map_get. destruct (list_find _ m) as [[j x]|] eqn:E; [|done].
  simpl. intros [= <-]. apply list_find_Some in E as (? & -> & _). done.
Qed.

Lemma index_map_get_lt m key i :
  index_map_get m key = Some i → (i < length m)%nat.
Proof. intros ?%index_map_get_Some. by eapply lookup_lt_Some. Qed.

Lemma index_map_get_None m key : index_map_get m key = None ↔ key ∉ m.
Proof.
  unfold index_map_get. rewrite fmap_None, list_find_None, Forall_forall.
  split; [intros Hm Hin; by apply (Hm key)|intros Hm x Hx ->; done].
Qed.

Lemma index_map_get_is_Some m key : is_Some (index_map_get m key) ↔ key ∈ m.
Proof.
  rewrite <-not_eq_None_Some, index_map_get_None.
  split; [apply dec_stable|auto].
Qed.

Lemma index_map_get_NoDup m key i :
  NoDup m → m !! i = Some key → index_map_get m key = Some i.
Proof.
  intros Hnd Hi.
  destruct (index_map_get m key) as [j|] eqn:E.
  - apply index_map_get_Some in E. f_equal. by eapply NoDup_lookup.
  - apply index_map_get_None in E. destruct E. by eapply list_elem_of_lookup_2.
Qed.

Lemma for_each_add_entry_Val m silent (l : list (K * R)) acc v :
  NoDup l.*1 →
  for_each (add_entry m silent) l acc = Val v →
  length v = length acc ∧
  ∀ i k, index_map_get m k = Some i →
    v !! i = (λ a, a + default 0 (list_to_map (M:=gmap K R) l !! k)) <$> acc !! i.
Proof.
  revert acc. induction l as [|[k' w] l IH]; intros acc Hnd Hv; simpl in *.
  - injection Hv as <-. split; [done|]. intros i k _.
    rewrite lookup_empty. simpl. destruct (acc !! i); simpl; [f_equal; lra|done].
  - apply NoDup_cons in Hnd as [Hk' Hnd].
    destruct (index_map_get m k') as [j|] eqn:Ej; simpl in Hv.
    + apply IH in Hv as [Hlen Hv]; [|done]. split.
      { by rewrite Hlen, length_alter. }
      intros i k Hi. rewrite (Hv i k Hi).
      destruct (decide (k' = k)) as [->|Hne].
      * assert (j = i) as -> by congruence.
        rewrite list_lookup_alter_eq, lookup_insert_eq.
        rewrite (not_elem_of_list_to_map_1 _ _ Hk'). simpl.
        destruct (acc !! i); simpl; [f_equal; lra|done].
      * assert (j ≠ i).
        { intros ->. apply index_map_get_Some in Ej, Hi. congruence. }
        by rewrite list_lookup_alter_ne, lookup_insert_ne.
    + destruct silent; [|done]. apply IH in Hv as [Hlen Hv]; [|done].
      split; [done|]. intros i k Hi. rewrite (Hv i k Hi).
      rewrite lookup_insert_ne; [done|]. congruence.
Qed.

Lemma for_each_add_entry_known m silent (l : list (K * R)) acc :
  silent = true ∨ (∀ k, k ∈ l.*1 → k ∈ m) →
  ∃ v, for_each (add_entry m silent) l acc = Val v.
Proof.
  revert acc. induction l as [|[k' w] l IH]; intros acc Hok; simpl.
  - by eexists.
  - destruct (index_map_get m k') as [j|] eqn:Ej; simpl.
    + apply IH. destruct Hok as [?|Hok]; [by left|right].
      intros k Hk. apply Hok. simpl. by apply elem_of_cons; right.
    + destruct Hok as [->|Hok].
      * simpl. apply IH. by left.
      * apply index_map_get_None in Ej. destruct Ej. apply Hok. simpl.
        by apply elem_of_cons; left.
Qed.

Lemma for_each_add_entry_unknown m (l : list (K * R)) acc k :
  k ∈ l.*1 → k ∉ m →
  for_each (add_entry m false) l acc = Raise ValueError.
Proof.
  revert acc. induction l as [|[k' w] l IH]; intros acc Hin Hk; simpl in *.
  - by apply elem_of_nil in Hin.
  - destruct (index_map_get m k') as [j|] eqn:Ej; simpl.
    + apply IH; [|done]. apply elem_of_cons in Hin as [->|?]; [|done].
      apply index_map_get_None in Hk. congruence.
    + done.
Qed.

Lemma weighted_counter_lookup (weight : K → nat → R) (l : list K) key :
  weighted_counter weight l !! key =
    if decide (key ∈ l)
    then Some (weight key (count_occ (decide_rel (=)) l key)) else None.
Proof.
  unfold weighted_counter, Counter_items. rewrite <-list_fmap_compose.
  case_decide as Hin.
  - apply elem_of_list_to_map_1.
    + rewrite <-list_fmap_compose. simpl. rewrite list_fmap_id.
      apply first_seen_NoDup.
    + apply list_elem_of_fmap. exists key. split; [done|].
      by apply elem_of_first_seen.
  - apply not_elem_of_list_to_map_1. rewrite <-list_fmap_compose. simpl.
    rewrite list_fmap_id. by rewrite elem_of_first_seen.
Qed.

Lemma lookup_list_to_map_graph `{Countable K} {V} (h : K → V) (l : list K) k :
  list_to_map (M:=gmap K V) ((λ x, (x, h x)) <$> l) !! k
  = if decide (k ∈ l) then Some (h k) else None.
Proof.
  induction l as [|x l IH].
  - rewrite decide_False by apply not_elem_of_nil. apply lookup_empty.
  - rewrite fmap_cons, list_to_map_cons. destruct (decide (x = k)) as [->|Hne].
    + rewrite lookup_insert_eq. by rewrite decide_True by (by left).
    + rewrite lookup_insert_ne, IH by done.
      apply decide_ext. rewrite elem_of_cons. intuition congruence.
Qed.

Section VectorFromDictFacts.
Context (self : VectorFromIterable K) (d : gmap K R) (silent_kw : option bool).

Lemma VectorFromDict_call_lookup v :
  VectorFromDict_call self d silent_kw = Val v →
  length v = length (index_map self) ∧
  ∀ i key, index_map_get (index_map self) key = Some i →
    v !! i = Some (default 0 (d !! key)).
Proof.
  unfold VectorFromDict_call. intros Hv.
  apply for_each_add_entry_Val in Hv as [Hlen Hv];
    [|apply NoDup_fst_map_to_list].
  unfold np.zeros in *. rewrite length_replicate in Hlen. split; [done|].
  intros i key Hi. rewrite (Hv i key Hi), list_to_map_to_list.
  rewrite lookup_replicate_2 by by eapply index_map_get_lt.
  simpl. f_equal. lra.
Qed.

Lemma VectorFromDict_call_Val v :
  NoDup (index_map self) →
  VectorFromDict_call self d silent_kw = Val v →
  v = (λ key, default 0 (d !! key)) <$> index_map self.
Proof.
  intros Hnd [Hlen Hv]%VectorFromDict_call_lookup.
  apply list_eq. intros i. rewrite list_lookup_fmap.
  destruct (index_map self !! i) as [key|] eqn:Hi; simpl.
  - apply Hv. by apply index_map_get_NoDup.
  - apply lookup_ge_None. rewrite Hlen. by apply lookup_ge_None.
Qed.

Lemma VectorFromDict_call_known :
  default (silent self) silent_kw = true
  ∨ (∀ key, is_Some (d !! key) → key ∈ index_map self) →
  ∃ v, VectorFromDict_call self d silent_kw = Val v.
Proof.
  intros Hok. apply for_each_add_entry_known.
  destruct Hok as [?|Hok]; [by left|right].
  intros key [[k x] [-> Hkx]]%list_elem_of_fmap. apply Hok.
  apply elem_of_map_to_list in Hkx. by eexists.
Qed.

Lemma VectorFromDict_call_unknown key :
  default (silent self) silent_kw = false →
  is_Some (d !! key) → key ∉ index_map self →
  VectorFromDict_call self d silent_kw = Raise ValueError.
Proof.
  intros Hs [x Hx] Hkey. unfold VectorFromDict_call. rewrite Hs.
  apply for_each_add_entry_unknown with key; [|done].
  apply list_elem_of_fmap. exists (key, x). split; [done|].
  by apply elem_of_map_to_list.
Qed.

End VectorFromDictFacts.

Lemma VectorFromIterable_call_length rep it s w v :
  VectorFromIterable_call rep it s w = Val v →
  length v = length (index_map rep).
Proof. by intros [? _]%VectorFromDict_call_lookup. Qed.

Lemma VectorFromIterable_call_unknown rep it s w key :
  default (silent rep) s = false → key ∈ iter it → key ∉ index_map rep →
  VectorFromIterable_call rep it s w = Raise ValueError.
Proof.
  intros Hs Hin Hkey. unfold VectorFromIterable_call.
  apply VectorFromDict_call_unknown with key; [done| |done].
  destruct it as [l|d]; simpl in *.
  - rewrite weighted_counter_lookup, decide_True by done. by eexists.
  - apply list_elem_of_fmap in Hin as [[k x] [-> Hkx]].
    apply elem_of_map_to_list in Hkx. by eexists.
Qed.

Lemma VectorFromIterable_call_known_only rep it s w :
  NoDup (index_map rep) → default (silent rep) s = true →
  ∃ vector,
    VectorFromIterable_call rep it s w = Val vector
    ∧ VectorFromIterable_call rep (known_only (index_map rep) it) s w
      = Val vector.
Proof.
  intros Hnd Hs. unfold VectorFromIterable_call.
  set (d := match it with Dict d => d | Coll l => _ end).
  set (d' := match known_only _ it with Dict d => d | Coll l => _ end).
  destruct (VectorFromDict_call_known rep d s) as [v Hv]; [by left|].
  destruct (VectorFromDict_call_known rep d' s) as [v' Hv']; [by left|].
  exists v. split; [done|]. rewrite Hv'. f_equal.
  apply VectorFromDict_call_Val in Hv, Hv'; try done.
  rewrite Hv, Hv'. apply list_fmap_ext. intros i key Hkey.
  apply list_elem_of_lookup_2 in Hkey. f_equal.
  unfold d, d'. destruct it as [l|m]; simpl.
  - rewrite !weighted_counter_lookup, count_occ_filter_known by done.
    rewrite (decide_ext (key ∈ filter _ l) (key ∈ l)); [done|].
    rewrite list_elem_of_filter. tauto.
  - rewrite map_lookup_filter. destruct (m !! key); simpl; [|done].
    by rewrite option_guard_True.
Qed.

End IndexMap.

(** ** Scalar products *)

Section LinearAlgebra.
Implicit Types (u v w x row : list R) (c : R).

Lemma scalar_product_nil_r u : scalar_product u [] = 0.
Proof. unfold scalar_product. by destruct u. Qed.

Lemma scalar_product_cons a u b v :
  scalar_product (a :: u) (b :: v) = a * b + scalar_product u v.
Proof. done. Qed.



Lemma dot_matrix_dot_products_lookup item_weights m w x i a row :
  item_weights !! i = Some a → m !! i = Some row →
  dot_matrix_dot_products item_weights m w x !! i
  = Some (a * scalar_product row (zip_with Rmult w x)).
Proof.
  intros Ha Hrow. unfold dot_matrix_dot_products.
  rewrite lookup_zip_with, Ha, list_lookup_fmap, Hrow. done.
Qed.

Lemma scalar_product_zero_values p n :
  scalar_product p (coefficient_wise_power_from_vector (replicate n 0) 1) = 0.
Proof.
  unfold coefficient_wise_power_from_vector. revert p.
  induction n as [|n IH]; intros [|a p]; simpl;
    rewrite ?scalar_product_nil_r; try done.
  rewrite scalar_product_cons, IH. lra.
Qed.

End LinearAlgebra.

(** ** The vectorization *)

Section VectorizationFacts.
Context `{Countable Item}.
Implicit Types (self : Vectorization Item) (bag : list Item) (item : Item).

Lemma getitem_lookup (v : list R) i x : v !! i = Some x → getitem v i = Val x.
Proof. unfold getitem. by intros ->. Qed.

Lemma set_bag_weights_Val self b2w s self' :
  set_bag_weights self b2w s = Val self' →
  VectorFromIterable_call (bag_vector_representation self) b2w (Some s) None
    = Val (bag_weights_vector self')
  ∧ bag_vector_representation self' = bag_vector_representation self
  ∧ item_vector_representation self' = item_vector_representation self
  ∧ item_bag_matrix self' = item_bag_matrix self
  ∧ item_weights_vector self' = item_weights_vector self.
Proof.
  unfold set_bag_weights. intros (v & Hv & [= <-])%bind_Val. by rewrite Hv.
Qed.

Lemma set_item_weights_Val self i2w s self' :
  set_item_weights self i2w s = Val self' →
  VectorFromIterable_call (item_vector_representation self) i2w (Some s) None
    = Val (item_weights_vector self')
  ∧ bag_vector_representation self' = bag_vector_representation self
  ∧ item_vector_representation self' = item_vector_representation self
  ∧ item_bag_matrix self' = item_bag_matrix self
  ∧ bag_weights_vector self' = bag_weights_vector self.
Proof.
  unfold set_item_weights. intros (v & Hv & [= <-])%bind_Val. by rewrite Hv.
Qed.

Lemma init_Val bs i2w tfidf self :
  init bs i2w tfidf = Val self →
  bags self = first_seen (iter bs)
  ∧ items self = first_seen (concat (iter bs))
  ∧ invariant self.
Proof.
  unfold init, initialize_bag_weights_vector, initialize_item_weights_vector.
  intros Hs.
  apply bind_Val in Hs as (self1 & Hs1 & Hs).
  apply bind_Val in Hs1 as (b2w & _ & Hs1).
  apply bind_Val in Hs as (i2w' & _ & Hs).
  apply set_item_weights_Val in Hs as (Hiw & Hb & Hi & Hm & Hbw).
  apply set_bag_weights_Val in Hs1 as (Hbw' & Hb' & Hi' & Hm' & _).
  simpl in *.
  apply VectorFromIterable_call_length in Hiw, Hbw'.
  unfold bags, items, keys. rewrite Hb, Hi, Hb', Hi'. simpl.
  split_and!; [done..|].
  split; unfold bags, items, keys; rewrite ?Hb, ?Hi, ?Hm, ?Hbw, ?Hb', ?Hi', ?Hm';
    simpl; try done.
  - apply first_seen_NoDup.
  - apply first_seen_NoDup.
  - intros item. rewrite elem_of_first_seen, list_elem_of_In, in_concat.
    split; intros (bag & ? & ?); exists bag.
    + by rewrite elem_of_first_seen, !list_elem_of_In.
    + by rewrite <-!list_elem_of_In, <-elem_of_first_seen.
  - by rewrite Hiw, Hi'.
Qed.

Lemma built_invariant self : built self → invariant self.
Proof.
  induction 1 as [bs i2w tfidf self Hinit
                 |self b2w s self' _ IH Hset|self i2w s self' _ IH Hset].
  - by apply init_Val in Hinit as (_ & _ & ?).
  - apply set_bag_weights_Val in Hset as (Hv & Hb & Hi & Hm & Hw).
    apply VectorFromIterable_call_length in Hv.
    destruct IH. split; unfold bags, items, keys in *;
      rewrite ?Hb, ?Hi, ?Hm, ?Hw; done.
  - apply set_item_weights_Val in Hset as (Hv & Hb & Hi & Hm & Hw).
    apply VectorFromIterable_call_length in Hv.
    destruct IH. split; unfold bags, items, keys in *;
      rewrite ?Hb, ?Hi, ?Hm, ?Hw; done.
Qed.

Lemma set_item_weights_Dict_get self (mapping : gmap Item R) silent self' item :
  set_item_weights self (Dict mapping) silent = Val self' →
  item ∈ items self →
  get_item_weight self' item = Val (default 0 (mapping !! item)).
Proof.
  intros (Hv & _ & Hi & _)%set_item_weights_Val.
  apply VectorFromDict_call_lookup in Hv as [_ Hv].
  intros [i Hi']%index_map_get_is_Some. unfold get_item_weight.
  rewrite Hi. unfold items, keys in Hi'. rewrite Hi'.
  apply getitem_lookup. by apply Hv.
Qed.

Lemma bag_vector_Val self (query : list (list Item)) :
  invariant self → (∀ bag, bag ∈ query → bag ∈ bags self) →
  VectorFromIterable_call (bag_vector_representation self) (Coll query)
    None None
  = Val ((λ bag, if decide (bag ∈ query) then 1 else 0) <$> bags self).
Proof.
  intros Hinv Hknown. unfold VectorFromIterable_call. simpl.
  set (d := weighted_counter _ query).
  assert (∀ bag, d !! bag = if decide (bag ∈ query) then Some 1 else None)
    as Hd.
  { intros bag. unfold d. rewrite weighted_counter_lookup.
    case_decide; [|done]. by rewrite (inv_bag_unit _ Hinv). }
  destruct (VectorFromDict_call_known (bag_vector_representation self) d None)
    as [v Hv].
  { right. intros bag [x Hx]. rewrite Hd in Hx. case_decide; [|done].
    by apply Hknown. }
  rewrite Hv. f_equal.
  apply VectorFromDict_call_Val in Hv; [|apply (inv_bags_NoDup _ Hinv)].
  rewrite Hv. apply list_fmap_ext. intros _ bag _. rewrite Hd.
  by case_decide.
Qed.

Lemma scalar_product_query (f : list Item → R) (query : list (list Item))
    (bs : list (list Item)) (w : list R) :
  scalar_product (f <$> bs)
    (zip_with Rmult w
       ((λ bag, if decide (bag ∈ query) then 1 else 0) <$> bs))
  = Rsum ((λ '(bag, bag_weight), bag_weight * f bag)
            <$> filter (λ p, p.1 ∈ query) (zip bs w)).
Proof.
  revert w. induction bs as [|bag bs IH]; intros [|b w]; simpl;
    rewrite ?scalar_product_nil_r; try done.
  rewrite scalar_product_cons, IH, filter_cons. simpl.
  case_decide; simpl; r_arith.
Qed.

Lemma multiplicity_nonzero item bag : multiplicity item bag ≠ 0 ↔ item ∈ bag.
Proof.
  unfold multiplicity. rewrite list_elem_of_In, (count_occ_In (decide_rel (=))).
  split.
  - intros Hne. destruct (count_occ _ bag item) eqn:E; [done|lia].
  - intros Hpos. apply not_0_INR. lia.
Qed.

Lemma count_nonzero_multiplicity item (bs : list (list Item)) :
  length (filter (λ x, x ≠ 0) ((λ bag, multiplicity item bag) <$> bs))
  = length (filter (λ bag, item ∈ bag) bs).
Proof.
  induction bs as [|bag bs IH]; [done|].
  rewrite fmap_cons, !filter_cons.
  destruct (decide (item ∈ bag)) as [Hb|Hb].
  - rewrite decide_True by (by apply (proj2 (multiplicity_nonzero _ _))).
    simpl. by rewrite IH.
  - rewrite decide_False; [done|]. by rewrite multiplicity_nonzero.
Qed.

Lemma count_bags_containing_item_Val self item :
  item_bag_matrix self
  = (λ item, (λ bag, multiplicity item bag) <$> bags self) <$> items self →
  item ∈ items self →
  count_bags_containing_item self item = Val (containing self item).
Proof.
  intros Hm Hin. unfold count_bags_containing_item.
  rewrite decide_False by auto.
  destruct (proj2 (index_map_get_is_Some _ _) Hin) as [i Hi].
  unfold items, keys in *. unfold index_map_getitem. rewrite Hi. simpl.
  f_equal. unfold count_nonzero_entries_in_matrix_row, containing.
  rewrite Hm, list_lookup_fmap. unfold items, keys.
  rewrite (index_map_get_Some _ _ _ Hi). simpl.
  apply count_nonzero_multiplicity.
Qed.

Lemma containing_bounds self item :
  (∃ bag, bag ∈ bags self ∧ item ∈ bag) →
  (0 < containing self item ≤ length (bags self))%nat.
Proof.
  intros (bag & Hbag & Hitem). unfold containing.
  split; [|apply length_filter].
  assert (bag ∈ filter (λ bag, item ∈ bag) (bags self)) as Hin.
  { by apply list_elem_of_filter. }
  destruct (filter _ _); [by apply elem_of_nil in Hin|simpl; lia].
Qed.

Lemma log_of_ratio_positive (numerator denominator : nat) :
  (0 < denominator ≤ numerator)%nat →
  log_of_ratio_zero_if_null_denominator numerator denominator
  = Val (ln (INR numerator / INR denominator)).
Proof.
  intros [Hd Hn]. unfold log_of_ratio_zero_if_null_denominator.
  rewrite decide_False by lia.
  assert (0 < INR numerator / INR denominator) as Hpos.
  { apply Rdiv_lt_0_compat; apply lt_0_INR; lia. }
  unfold truediv. destruct denominator as [|d]; [lia|].
  change (np.log (INR numerator / INR (S d)) = Val (ln (INR numerator / INR (S d)))).
  unfold np.log. rewrite decide_False by lra.
  destruct (Rlt_dec _ 0); [lra|done].
Qed.

Lemma tfidf_bag_weights_Val self :
  (∀ bag, bag ∈ bags self → bag ≠ []) →
  tfidf_bag_weights self
  = Val (list_to_map
           ((λ bag, (bag, INR 1 / INR (length bag))) <$> bags self)).
Proof.
  intros Hne. unfold tfidf_bag_weights.
  rewrite (comprehension_Val _ (λ bag, (bag, INR 1 / INR (length bag))));
    [done|].
  intros bag Hbag%Hne. by destruct bag.
Qed.

Lemma tfidf_item_weights_Val self :
  item_bag_matrix self
  = (λ item, (λ bag, multiplicity item bag) <$> bags self) <$> items self →
  (∀ item, item ∈ items self → ∃ bag, bag ∈ bags self ∧ item ∈ bag) →
  tfidf_item_weights self
  = Val (list_to_map
           ((λ item, (item, ln (INR (length (bags self))
                                / INR (containing self item))))
              <$> items self)).
Proof.
  intros Hm Hib. unfold tfidf_item_weights.
  rewrite (comprehension_Val _
             (λ item, (item, ln (INR (length (bags self))
                                 / INR (containing self item))))); [done|].
  intros item Hitem. rewrite (count_bags_containing_item_Val _ _ Hm Hitem).
  simpl. rewrite log_of_ratio_positive; [done|].
  by apply containing_bounds, Hib.
Qed.

Lemma initialize_bag_weights_vector_tfidf self (bs : iterable (list Item)) :
  bags self = first_seen (iter bs) →
  (isinstance_dict bs = false → ∀ bag, bag ∈ iter bs → bag ≠ []) →
  ∃ self', initialize_bag_weights_vector self bs true = Val self'.
Proof.
  intros Hbags Hne. unfold initialize_bag_weights_vector.
  assert (∀ (d : gmap (list Item) R),
            (∀ bag, is_Some (d !! bag) → bag ∈ bags self) →
            ∃ self', set_bag_weights self (Dict d)
                       set_bag_weights_silent_default = Val self') as Hset.
  { intros d Hd. unfold set_bag_weights, VectorFromIterable_call.
    destruct (VectorFromDict_call_known (bag_vector_representation self) d
                (Some set_bag_weights_silent_default)) as [v ->]; [by right|].
    by eexists. }
  destruct bs as [l|d]; simpl in *.
  - rewrite tfidf_bag_weights_Val.
    + simpl. apply Hset. intros bag [x Hx].
      rewrite lookup_list_to_map_graph in Hx. by case_decide.
    + intros bag. rewrite Hbags, elem_of_first_seen. by apply Hne.
  - apply Hset. intros bag [x Hx]. rewrite Hbags, elem_of_first_seen.
    apply list_elem_of_fmap. exists (bag, x). split; [done|].
    by apply elem_of_map_to_list.
Qed.

(** *** Statements on the vectorization *)

(** C1.  For a vectorization built from an initial collection of bags and a
    queried collection of bags that all belong to it, the call returns a
    vector over the items whose coefficient at the index of each item is
    the weight of the item times the sum, over the bags [j] of the index
    space that are in the queried collection, of the weight of bag [j]
    times the multiplicity of the item in bag [j]. *)
Theorem call_weighted_sum self (query : list (list Item)) :
  built self → (∀ bag, bag ∈ query → bag ∈ bags self) →
  ∃ vector,
    call self (Coll query) = Val vector
    ∧ length vector = length (items self)
    ∧ ∀ item index item_weight,
        index_map_get (items self) item = Some index →
        item_weights_vector self !! index = Some item_weight →
        vector !! index
        = Some (item_weight
                * Rsum ((λ '(bag, bag_weight),
                           bag_weight * multiplicity item bag)
                          <$> filter (λ p, p.1 ∈ query)
                                (zip (bags self) (bag_weights_vector self)))).
Proof.
  intros Hinv%built_invariant Hknown. unfold call.
  rewrite (bag_vector_Val self query Hinv Hknown). simpl.
  eexists. split; [done|]. split.
  - unfold dot_matrix_dot_products.
    rewrite length_zip_with, length_fmap, (inv_matrix _ Hinv), length_fmap.
    rewrite (inv_item_weights _ Hinv). lia.
  - intros item i a Hi Ha.
    rewrite (dot_matrix_dot_products_lookup _ _ _ _ i a
               (multiplicity item <$> bags self)); [|done|].
    + by rewrite scalar_product_query.
    + rewrite (inv_matrix _ Hinv), list_lookup_fmap.
      by rewrite (index_map_get_Some _ _ _ Hi).
Qed.

(** C4.  A vectorization constructed with [tfidf=True] and no item weights
    (its bags being non-empty when they are not given as a dict, the
    tf-idf bag weight [1 / len(bag)] being computed first) gives each
    item the weight [log(N / n)], for [N] the number of bags and [n] the
    number of bags that contain the item; this is [0] for an item that
    is in every bag; and the logarithm of the ratio is [0.], not a
    non-finite value, when the denominator is zero. *)
Theorem tfidf_item_weight (bs : iterable (list Item)) :
  (isinstance_dict bs = false → ∀ bag, bag ∈ iter bs → bag ≠ []) →
  (∃ self,
     init bs None true = Val self
     ∧ ∀ item, item ∈ items self →
         get_item_weight self item
         = Val (ln (INR (length (bags self)) / INR (containing self item)))
         ∧ (containing self item = length (bags self) →
            get_item_weight self item = Val 0))
  ∧ (∀ numerator,
       log_of_ratio_zero_if_null_denominator numerator 0 = Val 0).
Proof.
  intros Hne. split; [|done].
  unfold init.
  set (self0 := {| bag_vector_representation := _ |}).
  destruct (initialize_bag_weights_vector_tfidf self0 bs) as [self1 Hself1];
    [done..|].
  rewrite Hself1. simpl.
  unfold initialize_bag_weights_vector in Hself1.
  apply bind_Val in Hself1 as (b2w & _ & Hself1).
  apply set_bag_weights_Val in Hself1 as (_ & Hb & Hi & Hm & _).
  assert (bags self1 = first_seen (iter bs)) as Hbags.
  { unfold bags. by rewrite Hb. }
  assert (items self1 = first_seen (concat (iter bs))) as Hitems.
  { unfold items. by rewrite Hi. }
  unfold initialize_item_weights_vector.
  rewrite tfidf_item_weights_Val; cycle 1.
  { by rewrite Hm, Hbags, Hitems. }
  { intros item. rewrite Hitems, Hbags, elem_of_first_seen.
    rewrite list_elem_of_In, in_concat. intros (bag & ? & ?). exists bag.
    by rewrite elem_of_first_seen, !list_elem_of_In. }
  simpl. set (ws := list_to_map _).
  destruct (VectorFromDict_call_known (item_vector_representation self1) ws
              (Some set_item_weights_silent_default)) as [v Hv]; [by left|].
  assert (∃ self, set_item_weights self1 (Dict ws)
                    set_item_weights_silent_default = Val self)
    as [self Hself].
  { unfold set_item_weights, VectorFromIterable_call. rewrite Hv.
    by eexists. }
  exists self. split; [done|].
  intros item Hitem.
  pose proof Hself as (_ & Hb' & Hi' & _)%set_item_weights_Val.
  assert (items self = items self1) as Hitems' by (unfold items; by rewrite Hi').
  assert (bags self = bags self1) as Hbags' by (unfold bags; by rewrite Hb').
  rewrite Hitems' in Hitem.
  rewrite (set_item_weights_Dict_get _ _ _ _ _ Hself Hitem).
  unfold ws. rewrite lookup_list_to_map_graph, decide_True by done. simpl.
  unfold containing. rewrite Hbags'. split; [done|].
  fold (containing self1 item). intros ->. f_equal.
  rewrite Rdiv_diag; [apply ln_1|].
  apply not_0_INR.
  assert (∃ bag, bag ∈ bags self1 ∧ item ∈ bag) as Hex.
  { revert Hitem. rewrite Hitems, Hbags, elem_of_first_seen.
    rewrite list_elem_of_In, in_concat. intros (bag & ? & ?). exists bag.
    by rewrite elem_of_first_seen, !list_elem_of_In. }
  apply containing_bounds in Hex. lia.
Qed.

(** C5.  [set_item_weights(mapping)] replaces the whole vector of item
    weights: it succeeds with its default [silent], and after any call
    that succeeds the items are the same, every item of the space that
    is a key of the mapping has the weight the mapping gives it, and
    every item of the space that is not a key has weight [0], whatever
    its weight was before. *)
Theorem set_item_weights_full_replace self (mapping : gmap Item R) :
  (∃ self', set_item_weights self (Dict mapping)
              set_item_weights_silent_default = Val self')
  ∧ ∀ silent self',
      set_item_weights self (Dict mapping) silent = Val self' →
      items self' = items self
      ∧ (∀ item weight, item ∈ items self → mapping !! item = Some weight →
           get_item_weight self' item = Val weight)
      ∧ (∀ item, item ∈ items self → mapping !! item = None →
           get_item_weight self' item = Val 0).
Proof.
  split.
  - unfold set_item_weights, VectorFromIterable_call.
    destruct (VectorFromDict_call_known (item_vector_representation self)
                mapping (Some set_item_weights_silent_default))
      as [v ->]; [by left|]. by eexists.
  - intros silent self' Hset.
    pose proof (λ item, set_item_weights_Dict_get _ _ _ _ item Hset) as Hget.
    apply set_item_weights_Val in Hset as (_ & _ & Hi & _).
    split_and!.
    + unfold items. by rewrite Hi.
    + intros item weight Hin Hm. by rewrite (Hget item Hin), Hm.
    + intros item Hin Hm. by rewrite (Hget item Hin), Hm.
Qed.


(** C7.  [get_item_weight] and [get_bag_weight] raise [ValueError] on a
    key that is not in their index space, and on a key of the space they
    return the coefficient of the weight vector at the index of the key,
    without raising. *)
Theorem weight_getters self :
  built self →
  (∀ item, item ∉ items self → get_item_weight self item = Raise ValueError)
  ∧ (∀ item, item ∈ items self →
       ∃ index weight,
         index_map_get (items self) item = Some index
         ∧ item_weights_vector self !! index = Some weight
         ∧ get_item_weight self item = Val weight)
  ∧ (∀ bag, bag ∉ bags self → get_bag_weight self bag = Raise ValueError)
  ∧ (∀ bag, bag ∈ bags self →
       ∃ index weight,
         index_map_get (bags self) bag = Some index
         ∧ bag_weights_vector self !! index = Some weight
         ∧ get_bag_weight self bag = Val weight).
Proof.
  intros [_ _ _ _ _ _ _ _ Hbw Hiw]%built_invariant.
  unfold get_item_weight, get_bag_weight, items, bags, keys in *.
  split_and!.
  - by intros item ->%index_map_get_None.
  - intros item [i Hi]%index_map_get_is_Some.
    destruct (lookup_lt_is_Some_2 (item_weights_vector self) i) as [w Hw].
    { rewrite Hiw. by eapply index_map_get_lt. }
    exists i, w. rewrite Hi. split_and!; [done..|]. by apply getitem_lookup.
  - by intros bag ->%index_map_get_None.
  - intros bag [i Hi]%index_map_get_is_Some.
    destruct (lookup_lt_is_Some_2 (bag_weights_vector self) i) as [w Hw].
    { rewrite Hbw. by eapply index_map_get_lt. }
    exists i, w. rewrite Hi. split_and!; [done..|]. by apply getitem_lookup.
Qed.

(** C9.  Bags and items are not treated alike when a key is unknown.
    The bag space has [silent=False]: the call on a collection with a
    bag outside the initial collection raises [ValueError], and so does
    [set_bag_weights] with its default [silent].  The item space has
    [silent=True]: turning an iterable of items into a vector never
    raises and gives the vector of the same iterable without its
    unknown items, and [set_item_weights] with its default [silent]
    does the same. *)
Theorem unknown_key_policy self :
  built self →
  silent (bag_vector_representation self) = false
  ∧ silent (item_vector_representation self) = true
  ∧ (∀ (query : iterable (list Item)) bag,
     bag ∈ iter query → bag ∉ bags self →
     call self query = Raise ValueError
     ∧ set_bag_weights self query set_bag_weights_silent_default
       = Raise ValueError)
  ∧ (∀ it : iterable Item,
       ∃ vector,
         VectorFromIterable_call (item_vector_representation self) it
           None None = Val vector
         ∧ VectorFromIterable_call (item_vector_representation self)
             (known_only (items self) it) None None = Val vector)
  ∧ (∀ it : iterable Item,
       ∃ self',
         set_item_weights self it set_item_weights_silent_default = Val self'
         ∧ set_item_weights self (known_only (items self) it)
             set_item_weights_silent_default = Val self').
Proof.
  intros Hinv%built_invariant. split_and!.
  - apply (inv_bag_silent _ Hinv).
  - apply (inv_item_silent _ Hinv).
  - intros query bag Hin Hbag. unfold call, set_bag_weights.
    rewrite !(VectorFromIterable_call_unknown _ query _ _ bag); try done.
    simpl. apply (inv_bag_silent _ Hinv).
  - intros it. apply VectorFromIterable_call_known_only.
    + apply (inv_items_NoDup _ Hinv).
    + simpl. apply (inv_item_silent _ Hinv).
  - intros it. unfold set_item_weights.
    destruct (VectorFromIterable_call_known_only
                (item_vector_representation self) it
                (Some set_item_weights_silent_default) None)
      as (v & -> & Hv); [apply (inv_items_NoDup _ Hinv)|done|].
    unfold items, keys. rewrite Hv. simpl. by eexists.
Qed.

(** C10.  [count_bags_containing_item] returns [0], without raising, for
    an item that is not in the item space; for an item of the space it
    returns the number of non-zero coefficients in the row of the
    incidence matrix at the index of the item. *)
Theorem count_bags_containing_item_total self item :
  (item ∉ items self → count_bags_containing_item self item = Val 0%nat)
  ∧ (item ∈ items self → built self →
       ∃ index row,
         index_map_get (items self) item = Some index
         ∧ item_bag_matrix self !! index = Some row
         ∧ count_bags_containing_item self item
             = Val (length (filter (λ x, x ≠ 0) row))).
Proof.
  unfold count_bags_containing_item. split.
  - intros Hnot. by rewrite decide_True.
  - intros Hin [_ _ _ _ _ _ _ Hm _ _]%built_invariant.
    rewrite decide_False by auto.
    destruct (proj2 (index_map_get_is_Some _ _) Hin) as [i Hi].
    unfold items, keys in *. unfold index_map_getitem. rewrite Hi. simpl.
    unfold count_nonzero_entries_in_matrix_row.
    destruct (item_bag_matrix self !! i) as [row|] eqn:Hrow.
    + by exists i, row.
    + apply lookup_ge_None in Hrow. apply index_map_get_lt in Hi.
      rewrite Hm, length_fmap in Hrow. unfold items, keys in Hrow. lia.
Qed.

End VectorizationFacts.

(** ** The Jensen-Shannon distance *)

Section JensenShannonFacts.
Variable information_log : R → R.
Implicit Types (v p : list R).

Lemma probabilities_from_vector_Val v :
  Rsum v ≠ 0 →
  probabilities_from_vector v = Val ((λ x, x / Rsum v) <$> v).
Proof.
  intros Hs. unfold probabilities_from_vector, ndarray.divide_by.
  rewrite decide_False by done. apply comprehension_Val. intros x _. unfold np.divide.
  by rewrite decide_False.
Qed.

Lemma mixture_from_probabilities_diag p :
  mixture_from_probabilities p p = Val p.
Proof.
  unfold mixture_from_probabilities, ndarray.add, ndarray.broadcast.
  rewrite decide_True by done. f_equal. unfold ndarray.scale.
  induction p as [|a p IH]; csimpl; [done|]. rewrite IH. f_equal. lra.
Qed.

Lemma subtract_diag v :
  ndarray.subtract v v = Val (replicate (length v) 0).
Proof.
  unfold ndarray.subtract, ndarray.broadcast.
  rewrite decide_True by done. f_equal.
  induction v as [|a v IH]; csimpl; [done|]. rewrite IH. f_equal. lra.
Qed.

Lemma jensen_shannon_distribution_diag p :
  ∃ distribution,
    jensen_shannon_distribution_from_probabilities information_log p p
    = Val distribution
    ∧ Distribution.get_mean distribution = 0.
Proof.
  unfold jensen_shannon_distribution_from_probabilities.
  rewrite mixture_from_probabilities_diag. simpl.
  rewrite subtract_diag. simpl.
  unfold Distribution.init, concatenate_vectors.
  rewrite decide_False.
  - eexists. split; [done|].
    unfold Distribution.get_mean, Distribution.get_moment. simpl.
    rewrite <-replicate_add. apply scalar_product_zero_values.
  - intros Hlen. apply Hlen. unfold information_log_from_vector, ndarray.scale.
    by rewrite !length_app, !length_replicate, !length_fmap.
Qed.

Lemma JensenShannonDistance_call_diag v :
  Rsum v ≠ 0 → JensenShannonDistance_call information_log v v = Val 0.
Proof.
  intros Hs. unfold JensenShannonDistance_call.
  rewrite (probabilities_from_vector_Val v Hs). simpl.
  destruct (jensen_shannon_distribution_diag ((λ x, x / Rsum v) <$> v))
    as (distribution & -> & Hmean).
  simpl. rewrite Hmean. unfold np.sqrt.
  destruct (Rlt_dec 0 0); [lra|]. by rewrite sqrt_0.
Qed.

Lemma first_partial_gradient_diag v :
  Rsum v ≠ 0 →
  JensenShannonDistance_first_partial_gradient information_log v v
  = NonFinite nan.
Proof.
  intros Hs. unfold JensenShannonDistance_first_partial_gradient.
  rewrite (probabilities_from_vector_Val v Hs). simpl.
  rewrite mixture_from_probabilities_diag. simpl.
  rewrite subtract_diag. simpl.
  unfold information_log_from_vector. rewrite !length_fmap.
  unfold ndarray.divide_by.
  rewrite (comprehension_Val _ (λ x, x / 4)); cycle 1.
  { intros x _. unfold np.divide. rewrite decide_False by lra. done. }
  simpl. rewrite (JensenShannonDistance_call_diag v Hs). simpl.
  destruct v as [|a v]; [simpl in Hs; lra|]. simpl.
  unfold np.divide. rewrite decide_True by done.
  rewrite decide_True by lra. done.
Qed.

(** C2.  The code at two identical vectors: the first partial gradient of
    [[1., 3.]] against itself is the quotient of the zero vector by the
    distance [0], which numpy evaluates to [nan]; nothing in
    [first_partial_gradient] treats the case apart. *)
Theorem first_partial_gradient_identical_nan :
  JensenShannonDistance_first_partial_gradient information_log [1; 3] [1; 3]
  = NonFinite nan.
Proof. apply first_partial_gradient_diag. simpl. lra. Qed.

End JensenShannonFacts.

(** ** The distance of a vector to itself, on binary64 floats *)

Section Binary64Facts.
Import Binary64.

Lemma isfinite_sub_diag x : isfinite x = true → (x - x)%float = 0%float.
Proof.
  unfold isfinite. intros Hx. apply Prim2SF_inj. rewrite sub_spec.
  destruct (Prim2SF x) as [s|s| |s m e]; try discriminate.
  - by destruct s.
  - unfold SF64sub, SFsub. cbv zeta. rewrite Z.sub_diag. reflexivity.
Qed.

Lemma isfinite_mul_zero x :
  isfinite x = true → (x * 0)%float = 0%float ∨ (x * 0)%float = (-0)%float.
Proof.
  unfold isfinite. intros Hx.
  assert (Prim2SF (x * 0) = S754_zero false ∨ Prim2SF (x * 0) = S754_zero true)
    as [H|H].
  { rewrite mul_spec.
    destruct (Prim2SF x) as [s|s| |s m e]; try discriminate;
      destruct s; auto. }
  - left. by apply Prim2SF_inj.
  - right. by apply Prim2SF_inj.
Qed.

(** A float whose double is finite is finite. *)
Lemma isfinite_half x q :
  (q + q)%float = x → isfinite x = true → isfinite q = true.
Proof.
  intros <-. unfold isfinite. rewrite add_spec.
  destruct (Prim2SF q) as [s|s| |s m e]; try done. by destruct s.
Qed.

Lemma sum_zeros (terms : list float) :
  Forall (λ t, t = 0%float ∨ t = (-0)%float) terms → sum terms = 0%float.
Proof.
  unfold sum. induction 1 as [|t terms [-> | ->] _ IH]; first done.
  - exact IH.
  - exact IH.
Qed.

Lemma binary64_mixture_diag p :
  Forall (λ x, (0.5 * x + 0.5 * x)%float = x) p →
  mixture_from_probabilities p p = Val p.
Proof.
  intros Hp. unfold mixture_from_probabilities, broadcast, scale.
  rewrite decide_True by done. f_equal.
  induction Hp as [|x p Hx _ IH]; first done.
  csimpl. by rewrite Hx, IH.
Qed.

Lemma binary64_subtract_diag (information_log : float → float) p :
  Forall (λ x, isfinite (information_log x) = true) p →
  broadcast PrimFloat.sub (information_log_from_vector information_log p)
    (information_log_from_vector information_log p)
  = Val (replicate (length p) 0%float).
Proof.
  intros Hp. unfold broadcast, information_log_from_vector.
  rewrite decide_True by done. f_equal.
  induction Hp as [|x p Hx _ IH]; first done.
  csimpl. by rewrite isfinite_sub_diag, IH.
Qed.

(** The terms of the mean when all the values are [0]. *)
Lemma binary64_products_zero probabilities values :
  Forall (λ q, isfinite q = true) probabilities →
  Forall (λ value, value = 0%float) values →
  Forall (λ t, t = 0%float ∨ t = (-0)%float)
    (zip_with PrimFloat.mul probabilities
       (coefficient_wise_power_from_vector values 1)).
Proof.
  intros Hq. revert values.
  induction Hq as [|q probabilities Hq _ IH]; intros values Hv; first done.
  destruct Hv as [|value values -> Hv]; first done.
  csimpl. constructor; last by apply IH.
  change (0 * 1)%float with 0%float. by apply isfinite_mul_zero.
Qed.

(** The distance of [v] to itself when every coefficient of its
    renormalized vector is finite, has a finite information logarithm and
    is the sum of its two halves. *)
Lemma binary64_JensenShannonDistance_call_diag
    (information_log : float → float) v p :
  probabilities_from_vector v = Val p →
  Forall (λ x, isfinite x = true
               ∧ (0.5 * x + 0.5 * x)%float = x
               ∧ isfinite (information_log x) = true) p →
  JensenShannonDistance_call information_log v v = Val 0%float.
Proof.
  intros Hv Hp. unfold JensenShannonDistance_call.
  rewrite Hv. csimpl.
  unfold jensen_shannon_distribution_from_probabilities.
  rewrite binary64_mixture_diag
    by (eapply Forall_impl; [exact Hp|]; by intros x (_ & Hhalf & _)).
  csimpl.
  rewrite binary64_subtract_diag
    by (eapply Forall_impl; [exact Hp|]; by intros x (_ & _ & Hlog)).
  csimpl. unfold Distribution_init, concatenate_vectors.
  rewrite decide_False
    by (rewrite !length_app, !length_replicate; unfold scale;
        rewrite !length_fmap; lia).
  csimpl. unfold mret, outcome_ret. f_equal.
  unfold get_mean, get_moment, scalar_product. cbn [probabilities values].
  rewrite sum_zeros; first done.
  apply binary64_products_zero.
  - apply Forall_app_2; unfold scale; apply Forall_fmap;
      (eapply Forall_impl; [exact Hp|]); intros x (Hx & Hhalf & _); cbn;
      by eapply isfinite_half.
  - apply Forall_app_2; by apply Forall_replicate.
Qed.

(** A mantissa [mx] of [k] more binary digits than [m], which [k] shifts
    to the right turn into [m] with nothing lost, is rounded to [m]. *)
Lemma binary_round_aux_exact (s : bool) (mx m k : positive) (ex : Z) :
  digits2_pos mx = (digits2_pos m + k)%positive →
  SpecFloat.iter_pos shr_1 k
    {| shr_m := Z.pos mx; shr_r := false; shr_s := false |}
  = {| shr_m := Z.pos m; shr_r := false; shr_s := false |} →
  digits2_pos m = 53%positive →
  (-1074 ≤ ex + Z.pos k ≤ 971)%Z →
  binary_round_aux prec emax s (Z.pos mx) ex loc_Exact
  = S754_finite s m (ex + Z.pos k).
Proof.
  intros Hmx Hshift Hm He.
  unfold binary_round_aux, shr_fexp. cbn [Zdigits2 shr_record_of_loc].
  replace (fexp prec emax (Z.pos (digits2_pos mx) + ex) - ex)%Z
    with (Z.pos k)
    by (rewrite Hmx, Hm; unfold fexp, SpecFloat.emin, prec, emax; lia).
  cbn [shr]. rewrite Hshift.
  cbn [shr_m loc_of_shr_record shr_r shr_s round_nearest_even Zdigits2
       shr_record_of_loc].
  replace (fexp prec emax (Z.pos (digits2_pos m) + (ex + Z.pos k))
           - (ex + Z.pos k))%Z
    with 0%Z
    by (rewrite Hm; unfold fexp, SpecFloat.emin, prec, emax; lia).
  cbn [shr shr_m].
  replace (ex + Z.pos k <=? emax - prec)%Z with true; first done.
  symmetry. apply Z.leb_le. unfold prec, emax. lia.
Qed.

(** The mantissa of a float above the least exponent has 53 digits. *)
Lemma valid_binary_digits s m e :
  valid_binary (S754_finite s m e) = true → (-1073 ≤ e)%Z →
  digits2_pos m = 53%positive ∧ (e ≤ 971)%Z.
Proof.
  unfold SpecFloat.valid_binary, bounded, canonical_mantissa, fexp,
    SpecFloat.emin, prec, emax.
  intros [Hm He%Z.leb_le]%andb_prop He'. apply Z.eqb_eq in Hm.
  unfold fexp, SpecFloat.emin in Hm.
  assert (Z.pos (digits2_pos m) = 53%Z) as Hd by lia.
  split; [by injection Hd|lia].
Qed.

(** [0.5 * x] for [x] above the least exponent: the exponent goes down by
    one. *)
Lemma SF64mul_half s m e :
  valid_binary (S754_finite s m e) = true → (-1073 ≤ e)%Z →
  SF64mul (Prim2SF 0.5) (S754_finite s m e) = S754_finite s m (e - 1).
Proof.
  intros Hvalid He. destruct (valid_binary_digits s m e Hvalid He) as [Hm He'].
  change (Prim2SF 0.5) with (S754_finite false 4503599627370496 (-53)).
  unfold SF64mul, SFmul. cbn [xorb].
  replace (e - 1)%Z with (-53 + e + 52)%Z by lia.
  apply (binary_round_aux_exact s (4503599627370496 * m) m 52 (-53 + e));
    [|reflexivity|done|lia].
  cbv [Pos.mul PosDef.Pos.mul]. cbn [digits2_pos]. rewrite Hm. reflexivity.
Qed.

(** [q + q] below the greatest exponent: the exponent goes up by one. *)
Lemma SF64add_diag s m e :
  digits2_pos m = 53%positive → (-1074 ≤ e ≤ 970)%Z →
  SF64add (S754_finite s m e) (S754_finite s m e) = S754_finite s m (e + 1).
Proof.
  intros Hm He. unfold SF64add, SFadd. cbv zeta.
  rewrite Z.min_id. unfold shl_align. rewrite Z.sub_diag. cbn [fst].
  assert (cond_Zopp s (Z.pos m) + cond_Zopp s (Z.pos m)
          = cond_Zopp s (Z.pos m~0))%Z as ->.
  { destruct s; cbn [cond_Zopp]; lia. }
  assert (binary_normalize prec emax (cond_Zopp s (Z.pos m~0)) e false
          = binary_round prec emax s (m~0) e) as -> by (by destruct s).
  unfold binary_round. cbn [digits2_pos]. rewrite Hm.
  unfold shl_align.
  replace (fexp prec emax (Z.pos (Pos.succ 53) + e) - e)%Z with 1%Z
    by (unfold fexp, SpecFloat.emin, prec, emax; lia).
  apply (binary_round_aux_exact s (m~0) m 1 e); [|reflexivity|done|lia].
  cbn [digits2_pos]. rewrite Hm. reflexivity.
Qed.

(** The two halves of a float whose half is normal add up to it. *)
Lemma half_sum_exact x :
  half_is_normal x = true → (0.5 * x + 0.5 * x)%float = x.
Proof.
  unfold half_is_normal. rewrite leb_spec, ltb_spec.
  intros [Hle Hlt]%andb_prop. pose proof (Prim2SF_valid x) as Hvalid.
  apply Prim2SF_inj. rewrite add_spec, mul_spec.
  change (Prim2SF 0x1p-1021) with (S754_finite false 4503599627370496 (-1073))
    in Hle.
  change (Prim2SF infinity) with (S754_infinity false) in Hlt.
  destruct (Prim2SF x) as [s|s| |s m e]; try discriminate.
  { by destruct s. }
  assert (-1073 ≤ e)%Z as He.
  { unfold SFleb, SFcompare in Hle. destruct s; first discriminate.
    destruct (Z.compare_spec (-1073) e); [lia|lia|discriminate]. }
  destruct (valid_binary_digits s m e Hvalid He) as [Hm He'].
  rewrite SF64mul_half by done. rewrite SF64add_diag by (done || lia).
  f_equal. lia.
Qed.

Lemma eqb_zero x : (x =? 0)%float = true → x = 0%float ∨ x = (-0)%float.
Proof.
  rewrite FloatAxioms.eqb_spec. change (Prim2SF 0) with (S754_zero false).
  intros Hx.
  destruct (Prim2SF x) as [s|s| |s m e] eqn:Hs;
    [|by destruct s|done|by destruct s].
  destruct s; [right|left]; by apply Prim2SF_inj.
Qed.

Lemma half_is_zero_or_normal_spec x :
  half_is_zero_or_normal x = true →
  isfinite x = true ∧ (0.5 * x + 0.5 * x)%float = x.
Proof.
  unfold half_is_zero_or_normal. intros [Hx|Hx]%orb_prop.
  - by destruct (eqb_zero x Hx) as [-> | ->].
  - split; last by apply half_sum_exact.
    unfold half_is_normal in Hx. apply andb_prop in Hx as [Hle Hlt].
    rewrite leb_spec in Hle. rewrite ltb_spec in Hlt. unfold isfinite.
    change (Prim2SF infinity) with (S754_infinity false) in Hlt.
    destruct (Prim2SF x) as [s|s| |s m e]; try done. by destruct s.
Qed.

(** C3.  On binary64 floats, let [p] be the renormalized vector of [v].
    When every coefficient of [p] is zero or a finite float from [2^-1021]
    on, and has a finite information logarithm, the Jensen-Shannon
    distance of [v] to itself is exactly [0]. *)
Theorem binary64_JensenShannonDistance_identical
    (information_log : float → float) v p :
  probabilities_from_vector v = Val p →
  Forall (λ x, half_is_zero_or_normal x = true
               ∧ isfinite (information_log x) = true) p →
  JensenShannonDistance_call information_log v v = Val 0%float.
Proof.
  intros Hv Hp.
  apply (binary64_JensenShannonDistance_call_diag information_log v p Hv).
  eapply Forall_impl; [exact Hp|]. intros x [Hx Hlog].
  by destruct (half_is_zero_or_normal_spec x Hx).
Qed.

(** C3, where it fails.  The vector [[3 * 2^-1074; 1]] has non-negative
    coefficients, not all zero, and is its own renormalized vector.  The
    half of the subnormal [3 * 2^-1074] is rounded to [2 * 2^-1074], so the
    mixture of the vector with itself has [4 * 2^-1074] there and not the
    coefficient; the mean of the information gain is negative and the
    distance of the vector to itself is [nan], with the natural logarithm
    and with the logarithm of base 2. *)
Lemma binary64_JensenShannonDistance_subnormal :
  let v := [0x3p-1074; 1]%float in
  Forall (λ x, (0 <=? x)%float = true) v
  ∧ Exists (λ x, (x =? 0)%float = false) v
  ∧ probabilities_from_vector v = Val v
  ∧ half_is_zero_or_normal 0x3p-1074 = false
  ∧ mixture_from_probabilities v v = Val [0x4p-1074; 1]%float
  ∧ JensenShannonDistance_call log v v = Val PrimFloat.nan
  ∧ JensenShannonDistance_call log2 v v = Val PrimFloat.nan.
Proof.
  cbv zeta. split; [|split; [|split; [|split; [|split; [|split]]]]].
  - repeat constructor.
  - constructor. reflexivity.
  - vm_compute. reflexivity.
  - vm_compute. reflexivity.
  - vm_compute. reflexivity.
  - vm_compute. reflexivity.
  - vm_compute. reflexivity.
Qed.

End Binary64Facts.

(** ** The examples of the docstring *)

Lemma Val_pair (a b c d : R) : a = c → b = d → Val [a; b] = Val [c; d].
Proof. by intros -> ->. Qed.

(** C8.  With the bags [('x','y','x')], [('y','y','y')] and
    [('x','x','y','y')], the vector of the first two bags has the
    coefficients [2] and [4] when no weight is given, [6] and [28] with
    the item weights [{x: 3, y: 7}], and [4] and [12] after
    [set_item_weights({x: 2, y: 3})] on the latter. *)
Theorem docstring_example :
  (∃ vector,
     (v ← docstring_unweighted; call v docstring_query) = Val vector
     ∧ vector ≡ₚ [2; 4])
  ∧ (∃ vector,
       (v ← docstring_weighted; call v docstring_query) = Val vector
       ∧ vector ≡ₚ [6; 28])
  ∧ (∃ vector,
       (v ← docstring_weighted;
        v ← set_item_weights v
              (Dict {[ "x"%string := 2; "y"%string := 3 ]})
              set_item_weights_silent_default;
        call v docstring_query) = Val vector
       ∧ vector ≡ₚ [4; 12]).
Proof.
  split_and!.
  - exists [2; 4]. split; [|done]. vm_compute. apply Val_pair; lra.
  - exists [6; 28]. split; [|done]. vm_compute. apply Val_pair; lra.
  - exists [4; 12]. split; [|done]. vm_compute. apply Val_pair; lra.
Qed.

(** ** The statements above at the vectorization of the docstring *)

Lemma cut_and (A B : Prop) : A → (A → B) → A ∧ B.
Proof. tauto. Defined.

(** The vectorization of the docstring with its item weights, evaluated,
    with the proof that [__init__] returns it. *)
Ltac docstring_self :=
  eexists; apply cut_and; [vm_compute; reflexivity|];
  intros _; apply cut_and;
  [apply (built_init (Coll docstring_bags)
            (Some (Dict {[ "x"%string := 3; "y"%string := 7 ]})) false);
   vm_compute; reflexivity|].

Lemma call_weighted_sum_witness :
  ∃ self,
    docstring_weighted = Val self
    ∧ built self
    ∧ (∀ bag, bag ∈ take 2 docstring_bags → bag ∈ bags self)
    ∧ ∃ vector,
        call self docstring_query = Val vector
        ∧ length vector = length (items self)
        ∧ ∀ item index item_weight,
            index_map_get (items self) item = Some index →
            item_weights_vector self !! index = Some item_weight →
            vector !! index
            = Some (item_weight
                    * Rsum ((λ '(bag, bag_weight),
                               bag_weight * multiplicity item bag)
                              <$> filter (λ p, p.1 ∈ take 2 docstring_bags)
                                    (zip (bags self)
                                       (bag_weights_vector self)))).
Proof.
  docstring_self. intros Hbuilt. apply cut_and.
  { apply Forall_forall. compute_done. }
  intros Hquery.
  exact (call_weighted_sum _ (take 2 docstring_bags) Hbuilt Hquery).
Defined.

Lemma binary64_JensenShannonDistance_identical_witness :
  let information_log x :=
    if (x =? 0)%float then 0%float else Binary64.log x in
  Binary64.probabilities_from_vector [1; 0; 3]%float
  = Val [0.25; 0; 0.75]%float
  ∧ Forall (λ x, Binary64.half_is_zero_or_normal x = true
                 ∧ Binary64.isfinite (information_log x) = true)
      [0.25; 0; 0.75]%float
  ∧ Binary64.JensenShannonDistance_call information_log
      [1; 0; 3]%float [1; 0; 3]%float
    = Val 0%float.
Proof.
  cbv zeta.
  apply cut_and; [vm_compute; reflexivity|]. intros Hp.
  apply cut_and; [repeat constructor; vm_compute; reflexivity|].
  intros Hfinite.
  exact (binary64_JensenShannonDistance_identical _ _ _ Hp Hfinite).
Defined.

Lemma tfidf_item_weight_witness :
  (isinstance_dict (Coll docstring_bags) = false →
   ∀ bag, bag ∈ iter (Coll docstring_bags) → bag ≠ [])
  ∧ ∃ self,
      init (Coll docstring_bags) None true = Val self
      ∧ "x"%string ∈ items self
      ∧ get_item_weight self "x"%string
        = Val (ln (INR (length (bags self))
                   / INR (containing self "x"%string)))
      ∧ "y"%string ∈ items self
      ∧ containing self "y"%string = length (bags self)
      ∧ get_item_weight self "y"%string = Val 0.
Proof.
  apply cut_and.
  { intros _. apply Forall_forall. compute_done. }
  intros Hnonempty.
  destruct (tfidf_item_weight (Coll docstring_bags) Hnonempty)
    as [(self & Hinit & Hweight) _].
  exists self. split; [done|].
  pose proof (init_Val _ _ _ _ Hinit) as (Hbags & Hitems & _).
  assert ("x"%string ∈ items self) as Hx by (rewrite Hitems; compute_done).
  assert ("y"%string ∈ items self) as Hy by (rewrite Hitems; compute_done).
  assert (containing self "y"%string = length (bags self)) as Hall.
  { unfold containing. rewrite Hbags. compute_done. }
  destruct (Hweight _ Hx) as [Hwx _]. destruct (Hweight _ Hy) as [_ Hwy].
  split_and!; [done..|]. by apply Hwy.
Defined.

Lemma set_item_weights_full_replace_witness :
  ∃ self,
    docstring_weighted = Val self
    ∧ built self
    ∧ ∃ self',
        set_item_weights self (Dict {[ "x"%string := 2 ]})
          set_item_weights_silent_default = Val self'
        ∧ "x"%string ∈ items self
        ∧ get_item_weight self' "x"%string = Val 2
        ∧ "y"%string ∈ items self
        ∧ get_item_weight self' "y"%string = Val 0.
Proof.
  docstring_self. intros _.
  match goal with
  | |- ∃ self', set_item_weights ?self _ _ = _ ∧ _ =>
      destruct (set_item_weights_full_replace self {[ "x"%string := 2 ]})
        as [[self' Hset] Hreplace]
  end.
  destruct (Hreplace _ _ Hset) as (_ & Hpresent & Habsent).
  exists self'. split; [done|].
  apply cut_and; [compute_done|]. intros Hx.
  apply cut_and; [apply Hpresent; [done|apply lookup_singleton_eq]|].
  intros _. apply cut_and; [compute_done|]. intros Hy.
  apply Habsent; [done|]. by apply lookup_singleton_ne.
Defined.


Lemma weight_getters_witness :
  ∃ self,
    docstring_weighted = Val self
    ∧ built self
    ∧ ("z"%string ∉ items self)
    ∧ get_item_weight self "z"%string = Raise ValueError
    ∧ "x"%string ∈ items self
    ∧ (∃ index weight,
         index_map_get (items self) "x"%string = Some index
         ∧ item_weights_vector self !! index = Some weight
         ∧ get_item_weight self "x"%string = Val weight)
    ∧ (["z"%string] ∉ bags self)
    ∧ get_bag_weight self ["z"%string] = Raise ValueError
    ∧ ["y"; "y"; "y"]%string ∈ bags self
    ∧ (∃ index weight,
         index_map_get (bags self) ["y"; "y"; "y"]%string = Some index
         ∧ bag_weights_vector self !! index = Some weight
         ∧ get_bag_weight self ["y"; "y"; "y"]%string = Val weight).
Proof.
  docstring_self. intros Hbuilt.
  destruct (weight_getters _ Hbuilt) as (Hi0 & Hi1 & Hb0 & Hb1).
  apply cut_and; [compute_done|]. intros Hz.
  split; [by apply Hi0|].
  apply cut_and; [compute_done|]. intros Hx.
  split; [by apply Hi1|].
  apply cut_and; [compute_done|]. intros Hbz.
  split; [by apply Hb0|].
  apply cut_and; [compute_done|]. intros Hby.
  by apply Hb1.
Defined.

Lemma unknown_key_policy_witness :
  ∃ self,
    docstring_weighted = Val self
    ∧ built self
    ∧ ["z"%string] ∈ iter (Coll [["z"%string]])
    ∧ (["z"%string] ∉ bags self)
    ∧ call self (Coll [["z"%string]]) = Raise ValueError
    ∧ set_bag_weights self (Coll [["z"%string]])
        set_bag_weights_silent_default = Raise ValueError
    ∧ ∃ self',
        set_item_weights self (Coll ["z"; "x"]%string)
          set_item_weights_silent_default = Val self'
        ∧ set_item_weights self
            (known_only (items self) (Coll ["z"; "x"]%string))
            set_item_weights_silent_default = Val self'.
Proof.
  docstring_self. intros Hbuilt.
  destruct (unknown_key_policy _ Hbuilt) as (_ & _ & Hbags & _ & Hitems).
  apply cut_and; [compute_done|]. intros Hin.
  apply cut_and; [compute_done|]. intros Hz.
  destruct (Hbags _ _ Hin Hz) as [Hcall Hset].
  split; [done|]. split; [done|]. apply Hitems.
Defined.

Lemma count_bags_containing_item_total_witness :
  ∃ self,
    docstring_weighted = Val self
    ∧ built self
    ∧ ("z"%string ∉ items self)
    ∧ count_bags_containing_item self "z"%string = Val 0%nat
    ∧ "x"%string ∈ items self
    ∧ ∃ index row,
        index_map_get (items self) "x"%string = Some index
        ∧ item_bag_matrix self !! index = Some row
        ∧ count_bags_containing_item self "x"%string
          = Val (length (filter (λ x, x ≠ 0) row)).
Proof.
  docstring_self. intros Hbuilt.
  apply cut_and; [compute_done|]. intros Hz.
  split.
  { by apply (proj1 (count_bags_containing_item_total _ "z"%string)). }
  apply cut_and; [compute_done|]. intros Hx.
  by apply (proj2 (count_bags_containing_item_total _ "x"%string)).
Defined.

(** * Further properties *)

(** ** Texts and their bags of factors *)

Section FactorsFacts.
Context {A : Type}.
Implicit Types (text factor : list A).

Lemma elem_of_range start stop i : i ∈ range start stop ↔ (start ≤ i < stop)%Z.
Proof. unfold range. rewrite elem_of_seqZ. lia. Qed.

(** X1.  The factors in the bag of a text are exactly its non-empty
    contiguous pieces [text[start:start+k]] whose length [k] is at most
    [max_factor_length] (the length of the text when it is [None]). *)
Theorem bag_of_factors_from_text_elem_of text max_factor_length factor :
  factor ∈ bag_of_factors_from_text text max_factor_length
  ↔ ∃ start k : nat,
      (1 ≤ k)%nat
      ∧ (Z.of_nat k ≤ default (Z.of_nat (length text)) max_factor_length)%Z
      ∧ (start + k ≤ length text)%nat
      ∧ factor = take k (drop start text).
Proof.
  unfold bag_of_factors_from_text. rewrite list_elem_of_bind. split.
  - intros (start & Hf & Hstart%elem_of_range).
    apply list_elem_of_bind in Hf as (stop & Hf & Hstop%elem_of_range).
    apply list_elem_of_singleton in Hf as ->.
    exists (Z.to_nat start), (Z.to_nat stop - Z.to_nat start)%nat.
    unfold slice. split_and!; try done; lia.
  - intros (start & k & Hk & Hmax & Hlen & ->).
    exists (Z.of_nat start). rewrite elem_of_range. split; [|lia].
    apply list_elem_of_bind. exists (Z.of_nat (start + k)).
    rewrite elem_of_range. split; [|lia].
    apply list_elem_of_singleton. unfold slice. f_equal; [|f_equal]; lia.
Qed.


(** The bag, start by start, then length by length. *)
Lemma bag_of_factors_from_text_by_length text max_factor_length :
  bag_of_factors_from_text text max_factor_length
  = start ← seq 0 (length text);
    (λ k, take k (drop start text))
      <$> seq 1 (min (length text - start)
                   (Z.to_nat (default (Z.of_nat (length text))
                                max_factor_length))).
Proof.
  unfold bag_of_factors_from_text, range, seqZ.
  rewrite Z.sub_0_r, Nat2Z.id, list_fmap_bind.
  apply list_bind_ext; [|done]. intros start. simpl.
  rewrite list_fmap_bind, <-fmap_S_seq, <-list_fmap_compose.
  set (m := default _ _).
  replace (Z.to_nat (1 + Z.min (Z.of_nat (length text))
                           (Z.of_nat start + 0 + m)
                     - (Z.of_nat start + 0 + 1)))
    with (min (length text - start) (Z.to_nat m)) by lia.
  induction (seq 0 _) as [|i l IH]; [done|].
  rewrite bind_cons, fmap_cons, IH. simpl. f_equal.
  unfold slice. f_equal; [|f_equal]; lia.
Qed.

Lemma length_bind_sum {B C} (g : B → list C) (l : list B) :
  length (l ≫= g) = sum_list ((λ x, length (g x)) <$> l).
Proof.
  induction l as [|x l IH]; [done|].
  by rewrite bind_cons, length_app, IH.
Qed.

Lemma sum_min_closed (n m : nat) :
  (2 * sum_list ((λ start, min (n - start) m) <$> seq 0 n)
   = min m n * (2 * n + 1 - min m n))%nat.
Proof.
  induction n as [|n IH]; [simpl; lia|].
  rewrite <-cons_seq, fmap_cons, <-fmap_S_seq, <-list_fmap_compose.
  assert (∀ x l, sum_list (x :: l) = (x + sum_list l)%nat) as -> by done.
  change ((λ start, min (S n - start) m) ∘ S)
    with (λ start, min (n - start) m).
  set (total := sum_list _) in *.
  destruct (le_lt_dec m n).
  - rewrite (Nat.min_l m n) in IH by lia.
    rewrite (Nat.min_l m (S n)), (Nat.min_r (S n - 0) m) by lia.
    replace (2 * n + 1 - m)%nat with (2 * n + 1 - 2 * m + m)%nat in IH by lia.
    replace (2 * S n + 1 - m)%nat with (2 * n + 1 - 2 * m + m + 2)%nat by lia.
    nia.
  - rewrite (Nat.min_r m n) in IH by lia.
    rewrite (Nat.min_r m (S n)), (Nat.min_l (S n - 0) m) by lia.
    replace (2 * n + 1 - n)%nat with (n + 1)%nat in IH by lia.
    replace (2 * S n + 1 - S n)%nat with (n + 2)%nat by lia.
    nia.
Qed.

(** X2.  With [n] the length of the text and [m] the maximal factor length
    clamped to [0..n], the bag has [m * (2n + 1 - m) / 2] factors; it is
    empty exactly when the text is empty or the maximal length is not
    positive. *)
Theorem bag_of_factors_from_text_length text max_factor_length :
  let n := length text in
  let m := match max_factor_length with
           | None => n
           | Some max => min (Z.to_nat max) n
           end in
  (2 * length (bag_of_factors_from_text text max_factor_length)
   = m * (2 * n + 1 - m))%nat
  ∧ (bag_of_factors_from_text text max_factor_length = []
     ↔ text = [] ∨ ∃ max, max_factor_length = Some max ∧ (max ≤ 0)%Z).
Proof.
  intros n m.
  assert (2 * length (bag_of_factors_from_text text max_factor_length)
          = m * (2 * n + 1 - m))%nat as Hlen.
  { rewrite bag_of_factors_from_text_by_length, length_bind_sum.
    erewrite list_fmap_ext;
      [|intros i start _; by rewrite length_fmap, length_seq].
    rewrite sum_min_closed. fold n. subst m.
    destruct max_factor_length as [max|]; simpl; [done|].
    rewrite Nat2Z.id. fold n. by rewrite Nat.min_id. }
  split; [done|].
  rewrite <-length_zero_iff_nil, <-(length_zero_iff_nil text). fold n.
  subst m. destruct max_factor_length as [max|].
  - split.
    + intros H0. rewrite H0 in Hlen.
      destruct (decide (n = 0)%nat); [by left|right]. exists max.
      split; [done|]. nia.
    + intros [Hn|(max' & [= <-] & Hmax)]; nia.
  - split.
    + intros H0. left. nia.
    + intros [Hn|(max' & [=] & _)]. nia.
Qed.



Section Multiplicity.
Context `{EqDecision A}.

Lemma count_occ_bind_sum {B C} `{EqDecision C} (g : B → list C)
    (l : list B) x :
  count_occ (decide_rel (=)) (l ≫= g) x
  = sum_list ((λ b, count_occ (decide_rel (=)) (g b) x) <$> l).
Proof.
  induction l as [|b l IH]; [done|].
  by rewrite bind_cons, count_occ_app, IH.
Qed.

Lemma count_occ_by_length (h : nat → list A) (ks : list nat) factor :
  NoDup ks → (∀ k, k ∈ ks → length (h k) = k) →
  count_occ (decide_rel (=)) (h <$> ks) factor
  = if decide (length factor ∈ ks ∧ h (length factor) = factor)
    then 1%nat else 0%nat.
Proof.
  induction ks as [|k ks IH]; intros Hnd Hlen.
  { rewrite decide_False; [done|]. intros [[]%elem_of_nil _]. }
  apply NoDup_cons in Hnd as [Hk Hnd]. rewrite fmap_cons. simpl.
  rewrite IH; [|done|intros k' Hk'; apply Hlen; by right].
  assert (length (h k) = k) as Hhk by (apply Hlen; by left).
  destruct (decide_rel eq (h k) factor) as [Heq|Hne].
  - assert (length factor = k) as Hf by (by rewrite <-Heq).
    rewrite decide_False by (rewrite Hf; tauto).
    rewrite decide_True; [done|]. rewrite Hf. split; [by left|done].
  - apply decide_ext. rewrite elem_of_cons. split; [tauto|].
    intros [[->|?] Hh]; [done|tauto].
Qed.

Lemma filter_ext_elem_of {B} (P Q : B → Prop) `{∀ b, Decision (P b)}
    `{∀ b, Decision (Q b)} (l : list B) :
  (∀ b, b ∈ l → P b ↔ Q b) → filter P l = filter Q l.
Proof.
  induction l as [|b l IH]; intros HPQ; [done|].
  rewrite !filter_cons, IH by (intros; apply HPQ; by right).
  apply decide_ext, HPQ. by left.
Qed.

Lemma sum_list_indicator {B} (P : B → Prop) `{∀ b, Decision (P b)}
    (l : list B) :
  sum_list ((λ b, if decide (P b) then 1%nat else 0%nat) <$> l)
  = length (filter P l).
Proof.
  induction l as [|b l IH]; [done|].
  rewrite fmap_cons, filter_cons.
  assert (∀ x k, sum_list (x :: k) = (x + sum_list k)%nat) as -> by done.
  rewrite IH. by destruct (decide (P b)).
Qed.

(** X3.  A factor of admissible length occurs in the bag as many times as
    there are positions of the text at which it starts; any other list
    does not occur. *)
Theorem bag_of_factors_from_text_count_occ text max_factor_length factor :
  count_occ (decide_rel (=))
    (bag_of_factors_from_text text max_factor_length) factor
  = if decide (1 ≤ length factor
               ∧ (Z.of_nat (length factor)
                  ≤ default (Z.of_nat (length text)) max_factor_length)%Z)
    then length (filter (λ start,
                           start + length factor ≤ length text
                           ∧ take (length factor) (drop start text) = factor)
                   (seq 0 (length text)))
    else 0%nat.
Proof.
  rewrite bag_of_factors_from_text_by_length, count_occ_bind_sum.
  set (m := default _ _).
  erewrite list_fmap_ext; cycle 1.
  { intros i start _. apply count_occ_by_length; [apply NoDup_seq|].
    intros k Hk%elem_of_seq. rewrite length_take, length_drop. lia. }
  rewrite sum_list_indicator. case_decide as Hf.
  - f_equal. apply filter_ext_elem_of.
    intros start Hstart%elem_of_seq. rewrite elem_of_seq. split.
    + intros [? ?]. split; [lia|done].
    + intros [? ?]. split; [lia|done].
  - rewrite (filter_ext_elem_of _ (λ _, False)); [by induction (seq 0 (length text))|].
    intros start Hstart%elem_of_seq. rewrite elem_of_seq. lia.
Qed.

End Multiplicity.

End FactorsFacts.

Lemma lower_idemp letter : lower (lower letter) = lower letter.
Proof. by destruct letter as [[] [] [] [] [] [] [] []]. Qed.

Lemma lower_space : lower " "%char = " "%char.
Proof. done. Qed.

Lemma clean_letter_idemp letter alphabet :
  clean_letter (clean_letter letter alphabet) alphabet
  = clean_letter letter alphabet.
Proof.
  unfold clean_letter. destruct (decide (lower letter ∈ alphabet)) as [Hin|Hin].
  - rewrite lower_idemp. by rewrite decide_True.
  - rewrite lower_space. by case_decide.
Qed.

(** X4.  Cleaning a cleaned text changes nothing. *)
Theorem clean_text_idemp text alphabet :
  clean_text (clean_text text alphabet) alphabet = clean_text text alphabet.
Proof.
  unfold clean_text. rewrite <-list_fmap_compose.
  apply list_fmap_ext. intros _ letter _. apply clean_letter_idemp.
Qed.

(** X5.  For a text and an alphabet of code points below 256: every
    factor of the cleaned text is non-empty, no longer than the text, and
    made of letters of the alphabet and spaces only. *)
Theorem text_to_bag_letters text alphabet max_factor_length factor :
  factor ∈ bag_of_factors_from_text (clean_text text alphabet)
             max_factor_length →
  factor ≠ []
  ∧ length factor ≤ length text
  ∧ Forall (λ letter, letter ∈ alphabet ∨ letter = " "%char) factor.
Proof.
  rewrite bag_of_factors_from_text_by_length, list_elem_of_bind.
  intros (start & Hfactor & Hstart%elem_of_seq).
  apply list_elem_of_fmap in Hfactor as (k & -> & Hk%elem_of_seq).
  unfold clean_text in *. rewrite length_fmap in *. split_and!.
  - intros Hnil%(f_equal length).
    rewrite length_take, length_drop, length_fmap in Hnil. simpl in Hnil. lia.
  - rewrite length_take. lia.
  - apply Forall_take, Forall_drop, Forall_fmap, Forall_forall.
    intros letter _. simpl. unfold clean_letter. case_decide; auto.
Qed.

(** X6.  For a text and an alphabet of code points below 256, cleaning
    ignores case: the text and its lowercase, taken character by
    character, have the same cleaned text. *)
Theorem clean_text_ignores_case text alphabet :
  clean_text (lower <$> text) alphabet = clean_text text alphabet.
Proof.
  unfold clean_text. rewrite <-list_fmap_compose.
  apply list_fmap_ext. intros _ letter _. simpl.
  unfold clean_letter. by rewrite lower_idemp.
Qed.

(** X7.  When no letter of the alphabet is changed by [lower], the texts
    that cleaning leaves unchanged are exactly those made of letters of
    the alphabet and spaces. *)
Theorem clean_text_fixed text alphabet :
  Forall (λ letter, lower letter = letter) alphabet →
  clean_text text alphabet = text
  ↔ Forall (λ letter, letter ∈ alphabet ∨ letter = " "%char) text.
Proof.
  intros Hlower. rewrite Forall_forall in Hlower.
  unfold clean_text. induction text as [|letter text IH]; [done|].
  rewrite fmap_cons, Forall_cons, <-IH. split.
  - intros [= Hletter Htext]. split; [|done].
    unfold clean_letter in Hletter. case_decide as Hin; [|by right].
    left. by rewrite Hletter in Hin.
  - intros [Hletter ->]. f_equal. unfold clean_letter.
    destruct Hletter as [Hin| ->].
    + rewrite (Hlower _ Hin). by rewrite decide_True.
    + rewrite lower_space. by case_decide.
Qed.

Lemma clean_text_fixed_witness :
  Forall (λ letter, lower letter = letter) DEFAULT_ALPHABET
  ∧ (clean_text (String.list_ascii_of_string "a b1") DEFAULT_ALPHABET
     = String.list_ascii_of_string "a b1"
     ↔ Forall (λ letter, letter ∈ DEFAULT_ALPHABET ∨ letter = " "%char)
         (String.list_ascii_of_string "a b1")).
Proof.
  apply cut_and.
  { compute_done. }
  intros Hlower.
  exact (clean_text_fixed (String.list_ascii_of_string "a b1") DEFAULT_ALPHABET
           Hlower).
Defined.


(** ** Moments of a distribution *)

Section MomentFacts.
Implicit Types (p x u v : list R).


Lemma scalar_product_nonneg p x :
  Forall (λ a, 0 <= a) p → Forall (λ a, 0 <= a) x → 0 <= scalar_product p x.
Proof.
  intros Hp. revert x. induction Hp as [|a p Ha Hp IH]; intros x Hx.
  { unfold scalar_product. simpl. lra. }
  destruct Hx as [|b x Hb Hx]; [rewrite scalar_product_nil_r; lra|].
  rewrite scalar_product_cons. specialize (IH x Hx). nra.
Qed.

Lemma centered_second_moment p x mu :
  length x = length p →
  scalar_product p ((λ a, (a - mu) ^ 2) <$> x)
  = scalar_product p (coefficient_wise_power_from_vector x 2)
    - 2 * mu * scalar_product p (coefficient_wise_power_from_vector x 1)
    + mu ^ 2 * Rsum p.
Proof.
  unfold coefficient_wise_power_from_vector.
  revert p. induction x as [|a x IH]; intros [|b p] Hlen; simplify_eq/=.
  - unfold scalar_product. simpl. lra.
  - rewrite !scalar_product_cons.
    change (list_fmap R R ?f x) with (f <$> x). rewrite IH by done. lra.
Qed.

Lemma get_variance_centered (self : Distribution.Distribution) :
  length (Distribution.values self) = length (Distribution.probabilities self) →
  Rsum (Distribution.probabilities self) = 1 →
  Distribution.get_variance self
  = scalar_product (Distribution.probabilities self)
      ((λ a, (a - Distribution.get_mean self) ^ 2)
         <$> Distribution.values self).
Proof.
  intros Hlen Hsum.
  unfold Distribution.get_variance, Distribution.get_mean,
    Distribution.get_moment.
  set (mu := scalar_product _ (coefficient_wise_power_from_vector _ 1)).
  rewrite (centered_second_moment _ _ mu Hlen), Hsum. fold mu. lra.
Qed.

Lemma get_variance_nonneg (self : Distribution.Distribution) :
  length (Distribution.values self) = length (Distribution.probabilities self) →
  Rsum (Distribution.probabilities self) = 1 →
  Forall (λ a, 0 <= a) (Distribution.probabilities self) →
  0 <= Distribution.get_variance self.
Proof.
  intros Hlen Hsum Hp. rewrite get_variance_centered by done.
  apply scalar_product_nonneg; [done|].
  apply Forall_fmap, Forall_forall. intros a _. apply pow2_ge_0.
Qed.

(** X8.  For a distribution that [__init__] accepts and whose probabilities
    sum to one, [get_variance] is the mean of the squared deviations
    from [get_mean]; it is non-negative when no probability is
    negative. *)
Theorem Distribution_get_variance_centered values probabilities self :
  Distribution.init values probabilities = Val self →
  Rsum probabilities = 1 →
  Distribution.get_variance self
  = scalar_product probabilities
      ((λ a, (a - Distribution.get_mean self) ^ 2) <$> values)
  ∧ (Forall (λ a, 0 <= a) probabilities →
     0 <= Distribution.get_variance self).
Proof.
  unfold Distribution.init. case_decide as Hlen; [done|]. intros [= <-] Hsum.
  split.
  - by apply (get_variance_centered
                {| Distribution.values := values;
                   Distribution.probabilities := probabilities;
                   Distribution.moments := ∅ |}).
  - intros Hp. by apply get_variance_nonneg.
Qed.

End MomentFacts.

(** ** More on the Jensen-Shannon distance *)

Section JensenShannonMore.
Variable information_log : R → R.
Implicit Types (v p q : list R).












Lemma ln_monotone x y : 0 < x → x <= y → ln x <= ln y.
Proof.
  intros Hx [Hlt| ->]; [|lra]. left. by apply ln_increasing.
Qed.


Section Gain.
Hypothesis information_log_ln : ∀ x, 0 < x → information_log x = ln x.

(** X13.  When the information logarithm is the logarithm on the positive
    reals, the entropy of coefficients between [0] and [1] is a
    non-negative real number. *)
Theorem entropy_from_probabilities_nonneg p :
  Forall (λ x, 0 <= x <= 1) p →
  ∃ entropy,
    entropy_from_probabilities information_log p = Val entropy
    ∧ 0 <= entropy.
Proof.
  intros Hp. unfold entropy_from_probabilities, Distribution.init,
    information_log_from_vector.
  rewrite decide_False by (intros Hne; apply Hne; by rewrite !length_fmap).
  eexists. split; [done|].
  unfold Distribution.get_mean, Distribution.get_moment,
    coefficient_wise_power_from_vector.
  cbn [Distribution.values Distribution.probabilities].
  induction Hp as [|a p [Ha0 Ha1] Hp IH].
  { unfold scalar_product. simpl. lra. }
  rewrite !fmap_cons, scalar_product_cons.
  assert (0 <= a * (- information_log a) ^ 1); [|lra].
  destruct Ha0 as [Hpos|<-]; [|lra].
  rewrite information_log_ln by done.
  assert (ln a <= ln 1) by (by apply ln_monotone).
  rewrite ln_1 in *. simpl. nra.
Qed.

End Gain.


End JensenShannonMore.

(** ** More on the projection *)

Section ProjectionMore.
Context `{Countable Item}.
Implicit Types (self : Vectorization Item) (bag : list Item) (item : Item).
Implicit Types (query : list (list Item)).

Lemma weighted_counter_unit_ext {K} `{Countable K} (weight : K → nat → R)
    (l l' : list K) :
  (∀ key m, weight key m = 1) → (∀ key, key ∈ l ↔ key ∈ l') →
  weighted_counter weight l = weighted_counter weight l'.
Proof.
  intros Hunit Hll'. apply map_eq. intros key.
  rewrite !weighted_counter_lookup, !Hunit.
  apply decide_ext, Hll'.
Qed.

(** X15.  The vector of a collection depends on the set of its bags only:
    neither the order nor the repetitions of the bags count. *)
Theorem call_set_of_bags self query query' :
  built self → (∀ bag, bag ∈ query ↔ bag ∈ query') →
  call self (Coll query) = call self (Coll query').
Proof.
  intros Hinv%built_invariant Hsame.
  unfold call, VectorFromIterable_call. simpl.
  by rewrite (weighted_counter_unit_ext _ query query' (inv_bag_unit _ Hinv)).
Qed.





Lemma scalar_product_coefficients (f g : list Item → R)
    (bs : list (list Item)) (w : list R) :
  scalar_product (f <$> bs) (zip_with Rmult w (g <$> bs))
  = Rsum ((λ '(bag, bag_weight), g bag * bag_weight * f bag) <$> zip bs w).
Proof.
  revert w. induction bs as [|bag bs IH]; intros [|b w]; simpl;
    rewrite ?scalar_product_nil_r; try done.
  rewrite scalar_product_cons, IH. r_arith.
Qed.

(** X17.  Called on a dict from bags of the space to floats, the
    vectorization uses the values of the dict as coefficients of the
    bags, on top of the bag weights. *)
Theorem call_dict self (coefficients : gmap (list Item) R) :
  built self →
  (∀ bag, is_Some (coefficients !! bag) → bag ∈ bags self) →
  ∃ vector,
    call self (Dict coefficients) = Val vector
    ∧ ∀ item index item_weight,
        index_map_get (items self) item = Some index →
        item_weights_vector self !! index = Some item_weight →
        vector !! index
        = Some (item_weight
                * Rsum ((λ '(bag, bag_weight),
                           default 0 (coefficients !! bag) * bag_weight
                           * multiplicity item bag)
                          <$> zip (bags self) (bag_weights_vector self))).
Proof.
  intros Hinv%built_invariant Hknown. unfold call, VectorFromIterable_call.
  destruct (VectorFromDict_call_known (bag_vector_representation self)
              coefficients None) as [v Hv]; [by right|].
  rewrite Hv. simpl. eexists. split; [done|].
  apply VectorFromDict_call_Val in Hv; [|apply (inv_bags_NoDup _ Hinv)].
  intros item i a Hi Ha.
  rewrite (dot_matrix_dot_products_lookup _ _ _ _ i a
             (multiplicity item <$> bags self)); [|done|].
  - rewrite Hv. by rewrite scalar_product_coefficients.
  - rewrite (inv_matrix _ Hinv), list_lookup_fmap.
    by rewrite (index_map_get_Some _ _ _ Hi).
Qed.

End ProjectionMore.

(** ** More on the weights *)

Section CallGet.
Context `{Countable K}.
Implicit Types (rep : VectorFromIterable K) (it : iterable K) (key : K).

Lemma VectorFromIterable_call_get rep it s w v key i :
  VectorFromIterable_call rep it s w = Val v →
  index_map_get (index_map rep) key = Some i →
  v !! i
  = Some match it with
         | Dict d => default 0 (d !! key)
         | Coll l =>
             if decide (key ∈ l)
             then default (weight_from_key_and_multiplicity rep) w key
                    (count_occ (decide_rel (=)) l key)
             else 0
         end.
Proof.
  intros [_ Hv]%VectorFromDict_call_lookup Hi. rewrite (Hv i key Hi).
  destruct it as [l|d]; [|done].
  rewrite weighted_counter_lookup. by case_decide.
Qed.

Lemma VectorFromIterable_call_all_known rep it s w :
  (∀ key, key ∈ iter it → key ∈ index_map rep) →
  ∃ v, VectorFromIterable_call rep it s w = Val v.
Proof.
  intros Hknown. apply VectorFromDict_call_known. right.
  intros key [x Hx]. apply Hknown. destruct it as [l|d]; simpl in *.
  - rewrite weighted_counter_lookup in Hx. by case_decide.
  - apply list_elem_of_fmap. exists (key, x). split; [done|].
    by apply elem_of_map_to_list.
Qed.

End CallGet.

Section WeightsMore.
Context `{Countable Item}.
Implicit Types (self : Vectorization Item) (bag : list Item) (item : Item).

Lemma set_bag_weights_get self it silent self' bag i :
  set_bag_weights self it silent = Val self' →
  index_map_get (bags self) bag = Some i →
  get_bag_weight self' bag = getitem (bag_weights_vector self') i
  ∧ bags self' = bags self.
Proof.
  intros (_ & Hb & _)%set_bag_weights_Val Hi.
  unfold get_bag_weight, bags, keys in *. by rewrite Hb, Hi.
Qed.

(** X18.  [set_bag_weights] on a dict, with its default [silent]: it raises
    [ValueError] when a key is not a bag of the space; otherwise every
    bag of the space gets the value the dict gives it, and [0] when it
    is not a key. *)
Theorem set_bag_weights_dict self (mapping : gmap (list Item) R) :
  (∀ bag, is_Some (mapping !! bag) → bag ∉ bags self →
     set_bag_weights self (Dict mapping) set_bag_weights_silent_default
     = Raise ValueError)
  ∧ ((∀ bag, is_Some (mapping !! bag) → bag ∈ bags self) →
     ∃ self',
       set_bag_weights self (Dict mapping) set_bag_weights_silent_default
       = Val self'
       ∧ ∀ bag, bag ∈ bags self →
           get_bag_weight self' bag = Val (default 0 (mapping !! bag))).
Proof.
  split.
  - intros bag Hbag Hunknown. unfold set_bag_weights, VectorFromIterable_call.
    by rewrite (VectorFromDict_call_unknown _ mapping _ bag).
  - intros Hknown.
    destruct (VectorFromDict_call_known (bag_vector_representation self)
                mapping (Some set_bag_weights_silent_default))
      as [v Hv]; [by right|].
    assert (∃ self', set_bag_weights self (Dict mapping)
                       set_bag_weights_silent_default = Val self')
      as [self' Hset].
    { unfold set_bag_weights, VectorFromIterable_call. rewrite Hv.
      by eexists. }
    exists self'. split; [done|].
    intros bag [i Hi]%index_map_get_is_Some.
    destruct (set_bag_weights_get _ _ _ _ _ _ Hset Hi) as [-> _].
    apply set_bag_weights_Val in Hset as (Hcall & _).
    apply getitem_lookup.
    exact (VectorFromIterable_call_get _ _ _ _ _ _ _ Hcall Hi).
Qed.

(** X19.  Given a plain collection instead of a dict, the setters give
    the weight [1] to the keys of the space that are in the collection
    and [0] to the others, whatever their multiplicity. *)
Theorem set_weights_collection self :
  built self →
  (∀ collection : list Item,
     ∃ self',
       set_item_weights self (Coll collection)
         set_item_weights_silent_default = Val self'
       ∧ ∀ item, item ∈ items self →
           get_item_weight self' item
           = Val (if decide (item ∈ collection) then 1 else 0))
  ∧ (∀ collection : list (list Item),
       (∀ bag, bag ∈ collection → bag ∈ bags self) →
       ∃ self',
         set_bag_weights self (Coll collection)
           set_bag_weights_silent_default = Val self'
         ∧ ∀ bag, bag ∈ bags self →
             get_bag_weight self' bag
             = Val (if decide (bag ∈ collection) then 1 else 0)).
Proof.
  intros Hinv%built_invariant. split.
  - intros collection.
    destruct (VectorFromDict_call_known (item_vector_representation self)
                (weighted_counter
                   (weight_from_key_and_multiplicity
                      (item_vector_representation self)) collection)
                (Some set_item_weights_silent_default)) as [v Hv]; [by left|].
    assert (∃ self', set_item_weights self (Coll collection)
                       set_item_weights_silent_default = Val self')
      as [self' Hset].
    { unfold set_item_weights, VectorFromIterable_call. simpl. rewrite Hv.
      by eexists. }
    exists self'. split; [done|].
    intros item [i Hi]%index_map_get_is_Some.
    apply set_item_weights_Val in Hset as (Hcall & _ & Hrep & _).
    unfold get_item_weight. rewrite Hrep. unfold items, keys in Hi.
    rewrite Hi.
    rewrite (getitem_lookup _ _ _
               (VectorFromIterable_call_get _ _ _ _ _ _ _ Hcall Hi)).
    simpl. by rewrite (inv_item_unit _ Hinv).
  - intros collection Hknown.
    destruct (VectorFromIterable_call_all_known
                (bag_vector_representation self) (Coll collection)
                (Some set_bag_weights_silent_default) None) as [v Hv];
      [done|].
    assert (∃ self', set_bag_weights self (Coll collection)
                       set_bag_weights_silent_default = Val self')
      as [self' Hset].
    { unfold set_bag_weights. rewrite Hv. by eexists. }
    exists self'. split; [done|].
    intros bag [i Hi]%index_map_get_is_Some.
    destruct (set_bag_weights_get _ _ _ _ _ _ Hset Hi) as [-> _].
    apply set_bag_weights_Val in Hset as (Hcall & _).
    rewrite (getitem_lookup _ _ _
               (VectorFromIterable_call_get _ _ _ _ _ _ _ Hcall Hi)).
    simpl. by rewrite (inv_bag_unit _ Hinv).
Qed.

(** X20.  For an item of the space, [count_bags_containing_item] is the
    number of bags of the space that contain the item, which is at
    least one. *)
Theorem count_bags_containing_item_known self item :
  built self → item ∈ items self →
  count_bags_containing_item self item = Val (containing self item)
  ∧ (1 ≤ containing self item ≤ length (bags self))%nat.
Proof.
  intros Hinv%built_invariant Hitem. split.
  - apply count_bags_containing_item_Val; [apply (inv_matrix _ Hinv)|done].
  - apply containing_bounds. by apply (inv_items_bags _ Hinv).
Qed.

End WeightsMore.

(** ** More on the construction *)

Lemma comprehension_Raise {A B} (f : A → outcome B) (l : list A) x e :
  x ∈ l → f x = Raise e →
  (∀ y, y ∈ l → f y = Raise e ∨ ∃ b, f y = Val b) →
  comprehension f l = Raise e.
Proof.
  induction l as [|y l IH]; intros Hx Hfx Hl; [by apply elem_of_nil in Hx|].
  simpl. apply elem_of_cons in Hx as [->|Hx]; [by rewrite Hfx|].
  destruct (Hl y) as [->|[b ->]]; [by left|done|]. simpl.
  rewrite IH; [done..|]. intros z Hz. apply Hl. by right.
Qed.

Section InitMore.
Context `{Countable Item}.
Implicit Types (self : Vectorization Item) (bag : list Item) (item : Item).
Implicit Types (bs : iterable (list Item)).

Lemma initialize_bag_weights_vector_outcome self bs tfidf :
  bags self = first_seen (iter bs) →
  if decide (isinstance_dict bs = false ∧ tfidf = true ∧ [] ∈ iter bs)
  then initialize_bag_weights_vector self bs tfidf = Raise ZeroDivisionError
  else ∃ self', initialize_bag_weights_vector self bs tfidf = Val self'.
Proof.
  intros Hbags. case_decide as Hcond.
  - destruct Hcond as (Hdict & -> & Hempty).
    unfold initialize_bag_weights_vector. rewrite Hdict. simpl.
    unfold tfidf_bag_weights.
    rewrite (comprehension_Raise _ _ [] ZeroDivisionError); [done| |done|].
    + rewrite Hbags. by apply elem_of_first_seen.
    + intros [|item bag] _; [by left|right]. by eexists.
  - destruct tfidf.
    + apply initialize_bag_weights_vector_tfidf; [done|].
      intros Hdict bag Hbag ->. apply Hcond. by split_and!.
    + unfold initialize_bag_weights_vector. rewrite andb_false_r. simpl.
      unfold set_bag_weights.
      destruct (VectorFromIterable_call_all_known
                  (bag_vector_representation self) bs
                  (Some set_bag_weights_silent_default) None) as [v ->].
      { intros bag Hbag. fold (keys (bag_vector_representation self)).
        fold (bags self). rewrite Hbags. by apply elem_of_first_seen. }
      by eexists.
Qed.

Lemma initialize_item_weights_vector_Val self item_to_weight tfidf :
  item_bag_matrix self
  = (λ item, (λ bag, multiplicity item bag) <$> bags self) <$> items self →
  (∀ item, item ∈ items self → ∃ bag, bag ∈ bags self ∧ item ∈ bag) →
  ∃ self', initialize_item_weights_vector self item_to_weight tfidf
           = Val self'.
Proof.
  intros Hm Hib.
  assert (∀ it : iterable Item,
            ∃ self', set_item_weights self it set_item_weights_silent_default
                     = Val self') as Hset.
  { intros it. unfold set_item_weights, VectorFromIterable_call.
    match goal with
    | |- context [VectorFromDict_call ?rep ?d ?s] =>
        destruct (VectorFromDict_call_known rep d s) as [v ->]; [by left|]
    end.
    by eexists. }
  unfold initialize_item_weights_vector.
  destruct item_to_weight as [it|]; [apply Hset|].
  destruct tfidf; [|apply Hset].
  rewrite tfidf_item_weights_Val by done. apply Hset.
Qed.

Lemma init_cases bs item_to_weight tfidf :
  if decide (isinstance_dict bs = false ∧ tfidf = true ∧ [] ∈ iter bs)
  then init bs item_to_weight tfidf = Raise ZeroDivisionError
  else ∃ self, init bs item_to_weight tfidf = Val self.
Proof.
  unfold init.
  set (self0 := {| bag_vector_representation := _ |}).
  pose proof (initialize_bag_weights_vector_outcome self0 bs tfidf eq_refl)
    as Hbag.
  case_decide as Hcond; [by rewrite Hbag|].
  destruct Hbag as [self1 Hself1]. rewrite Hself1. simpl.
  unfold initialize_bag_weights_vector in Hself1.
  apply bind_Val in Hself1 as (b2w & _ & Hself1).
  apply set_bag_weights_Val in Hself1 as (_ & Hb & Hi & Hm & _).
  apply initialize_item_weights_vector_Val.
  - unfold bags, items. by rewrite Hm, Hb, Hi.
  - intros item. unfold bags, items. rewrite Hb, Hi. simpl.
    rewrite elem_of_first_seen, list_elem_of_In, in_concat.
    intros (bag & ? & ?). exists bag.
    by rewrite elem_of_first_seen, !list_elem_of_In.
Qed.


(** X21.  [__init__] fails in one case only: with [tfidf=True] and bags not
    given as a dict, an empty bag makes [1 / len(bag)] raise
    [ZeroDivisionError].  In every other case it returns. *)
Theorem init_outcome bs item_to_weight tfidf :
  if decide (isinstance_dict bs = false ∧ tfidf = true ∧ [] ∈ iter bs)
  then init bs item_to_weight tfidf = Raise ZeroDivisionError
  else ∃ self, init bs item_to_weight tfidf = Val self.
Proof. apply init_cases. Qed.

(** What [__init__] did, read back from its result: the dict or
    collection each setter was given. *)
Lemma init_inv bs item_to_weight tfidf self :
  init bs item_to_weight tfidf = Val self →
  ∃ (bag_to_weight : iterable (list Item)) (item_weights : iterable Item),
    VectorFromIterable_call (bag_vector_representation self) bag_to_weight
      (Some set_bag_weights_silent_default) None
    = Val (bag_weights_vector self)
    ∧ VectorFromIterable_call (item_vector_representation self) item_weights
        (Some set_item_weights_silent_default) None
      = Val (item_weights_vector self)
    ∧ (if negb (isinstance_dict bs) && tfidf
       then (∀ bag, bag ∈ iter bs → bag ≠ [])
            ∧ bag_to_weight
              = Dict (list_to_map
                        ((λ bag, (bag, INR 1 / INR (length bag)))
                           <$> bags self))
       else bag_to_weight = bs)
    ∧ match item_to_weight with
      | Some it => item_weights = it
      | None =>
          if tfidf
          then item_weights
               = Dict (list_to_map
                         ((λ item,
                             (item, ln (INR (length (bags self))
                                        / INR (containing self item))))
                            <$> items self))
          else item_weights = Coll (items self)
      end.
Proof.
  intros Hinit. pose proof (init_Val _ _ _ _ Hinit) as (Hbags & Hitems & Hinv).
  pose proof (init_cases bs item_to_weight tfidf) as Hout.
  rewrite Hinit in Hout. case_decide as Hcond; [done|]. clear Hout.
  unfold init in Hinit.
  apply bind_Val in Hinit as (self1 & Hs1 & Hs).
  unfold initialize_bag_weights_vector in Hs1.
  apply bind_Val in Hs1 as (b2w & Hb2w & Hs1).
  unfold initialize_item_weights_vector in Hs.
  apply bind_Val in Hs as (i2w & Hi2w & Hs).
  apply set_item_weights_Val in Hs as (Hiw & Hb & Hi & Hm & Hbw).
  apply set_bag_weights_Val in Hs1 as (Hbw' & Hb' & Hi' & Hm' & _).
  simpl in Hb', Hi', Hm'.
  assert (bags self1 = bags self) as Hbags1 by (unfold bags; by rewrite Hb).
  assert (items self1 = items self) as Hitems1
    by (unfold items; by rewrite Hi).
  exists b2w, i2w. split_and!.
  - rewrite Hb, Hb', Hbw. exact Hbw'.
  - by rewrite Hi.
  - destruct (negb (isinstance_dict bs) && tfidf) eqn:Htf.
    + apply andb_prop in Htf as [Hdict%negb_true_iff ->].
      assert (∀ bag, bag ∈ iter bs → bag ≠ []) as Hne.
      { intros bag Hbag ->. apply Hcond. by split_and!. }
      split; [done|]. rewrite tfidf_bag_weights_Val in Hb2w.
      * injection Hb2w as <-. rewrite Hbags. reflexivity.
      * intros bag Hbag. apply Hne. by apply elem_of_first_seen.
    + by injection Hb2w as <-.
  - destruct item_to_weight as [it|]; [by injection Hi2w as <-|].
    destruct tfidf; [|injection Hi2w as <-; by rewrite Hitems1].
    rewrite tfidf_item_weights_Val in Hi2w.
    + injection Hi2w as <-.
      rewrite Hbags1, Hitems1. do 2 f_equal. apply list_fmap_ext.
      intros i item _. unfold containing. by rewrite Hbags1.
    + rewrite <-Hm, Hbags1, Hitems1. apply (inv_matrix _ Hinv).
    + intros item. rewrite Hbags1, Hitems1. apply (inv_items_bags _ Hinv).
Qed.

(** X22.  Without item weights and without tf-idf, every item has weight
    [1], and every bag has weight [1], or the weight the dict of bags
    gives it. *)
Theorem init_default_weights bs :
  ∃ self,
    init bs None false = Val self
    ∧ (∀ item, item ∈ items self → get_item_weight self item = Val 1)
    ∧ (∀ bag, bag ∈ bags self →
         get_bag_weight self bag
         = Val match bs with
               | Coll _ => 1
               | Dict weights => default 0 (weights !! bag)
               end).
Proof.
  pose proof (init_cases bs None false) as Hout.
  rewrite decide_False in Hout by (by intros (_ & ? & _)).
  destruct Hout as [self Hinit]. exists self. split; [done|].
  pose proof (init_Val _ _ _ _ Hinit) as (Hbags & _ & Hinv).
  apply init_inv in Hinit as (b2w & i2w & Hbw & Hiw & Hb2w & Hi2w).
  rewrite andb_false_r in Hb2w. subst b2w i2w. split.
  - intros item Hitem.
    destruct (proj2 (index_map_get_is_Some _ _) Hitem) as [i Hi].
    unfold get_item_weight. unfold items, keys in Hi. rewrite Hi.
    apply getitem_lookup.
    rewrite (VectorFromIterable_call_get _ _ _ _ _ _ _ Hiw Hi).
    rewrite decide_True by done. simpl. by rewrite (inv_item_unit _ Hinv).
  - intros bag Hbag.
    destruct (proj2 (index_map_get_is_Some _ _) Hbag) as [i Hi].
    unfold get_bag_weight. unfold bags, keys in Hi. rewrite Hi.
    apply getitem_lookup.
    rewrite (VectorFromIterable_call_get _ _ _ _ _ _ _ Hbw Hi).
    destruct bs as [l|d]; [|done].
    rewrite decide_True by (rewrite Hbags in Hbag; by apply elem_of_first_seen).
    simpl. by rewrite (inv_bag_unit _ Hinv).
Qed.

(** X23.  With tf-idf and bags given as a plain collection, every bag of a
    vectorization that was constructed is non-empty and has weight
    [1 / len(bag)], whatever the item weights. *)
Theorem init_tfidf_bag_weights (initial_bags : list (list Item))
    item_to_weight self bag :
  init (Coll initial_bags) item_to_weight true = Val self →
  bag ∈ bags self →
  bag ≠ [] ∧ get_bag_weight self bag = Val (1 / INR (length bag)).
Proof.
  intros Hinit Hbag.
  pose proof (init_Val _ _ _ _ Hinit) as (Hbags & _ & Hinv).
  apply init_inv in Hinit as (b2w & i2w & Hbw & _ & [Hne ->] & _).
  split.
  { apply Hne. rewrite Hbags in Hbag. by apply elem_of_first_seen. }
  destruct (proj2 (index_map_get_is_Some _ _) Hbag) as [i Hi].
  unfold get_bag_weight. unfold bags, keys in Hi. rewrite Hi.
  apply getitem_lookup.
  rewrite (VectorFromIterable_call_get _ _ _ _ _ _ _ Hbw Hi).
  by rewrite lookup_list_to_map_graph, decide_True by done.
Qed.

(** X24.  With the tf-idf item weights, an item that is in every bag has
    coefficient [0] in the vector of every collection of bags of the
    space. *)
Theorem tfidf_item_in_every_bag bs self item query :
  init bs None true = Val self →
  item ∈ items self →
  containing self item = length (bags self) →
  (∀ bag, bag ∈ query → bag ∈ bags self) →
  ∃ vector index,
    call self (Coll query) = Val vector
    ∧ index_map_get (items self) item = Some index
    ∧ vector !! index = Some 0.
Proof.
  intros Hinit Hitem Hall Hquery.
  pose proof (init_Val _ _ _ _ Hinit) as (Hbags & _ & Hinv).
  apply init_inv in Hinit as (b2w & i2w & _ & Hiw & _ & ->).
  destruct (proj2 (index_map_get_is_Some _ _) Hitem) as [i Hi].
  unfold call. rewrite (bag_vector_Val self query Hinv Hquery). simpl.
  eexists _, i. split; [done|]. split; [done|].
  rewrite (dot_matrix_dot_products_lookup _ _ _ _ i 0
             (multiplicity item <$> bags self)).
  - f_equal. lra.
  - rewrite (VectorFromIterable_call_get _ _ _ _ _ _ _ Hiw Hi).
    rewrite lookup_list_to_map_graph, decide_True by done. simpl.
    rewrite Hall. f_equal. rewrite Rdiv_diag; [apply ln_1|].
    apply not_0_INR. rewrite <-Hall.
    assert (∃ bag, bag ∈ bags self ∧ item ∈ bag) as Hex
      by (by apply (inv_items_bags _ Hinv)).
    apply containing_bounds in Hex. lia.
  - rewrite (inv_matrix _ Hinv), list_lookup_fmap.
    by rewrite (index_map_get_Some _ _ _ Hi).
Qed.

End InitMore.

(** ** The further statements at concrete inputs *)

Lemma text_to_bag_letters_witness :
  let text := String.list_ascii_of_string "A-b" in
  let factor := String.list_ascii_of_string "a b" in
  factor ∈ bag_of_factors_from_text (clean_text text DEFAULT_ALPHABET)
             (Some DEFAULT_MAX_FACTOR_LENGTH)
  ∧ factor ≠ []
  ∧ length factor ≤ length text
  ∧ Forall (λ letter, letter ∈ DEFAULT_ALPHABET ∨ letter = " "%char) factor.
Proof.
  intros text factor. apply cut_and; [compute_done|]. intros Hfactor.
  exact (text_to_bag_letters text DEFAULT_ALPHABET
           (Some DEFAULT_MAX_FACTOR_LENGTH) factor Hfactor).
Defined.

Lemma Distribution_get_variance_centered_witness :
  ∃ self,
    Distribution.init [1; 3] [0.5; 0.5] = Val self
    ∧ Rsum [0.5; 0.5] = 1
    ∧ Distribution.get_variance self
      = scalar_product [0.5; 0.5]
          ((λ a, (a - Distribution.get_mean self) ^ 2) <$> [1; 3])
    ∧ (Forall (λ a, 0 <= a) [0.5; 0.5] →
       0 <= Distribution.get_variance self).
Proof.
  eexists. apply cut_and; [reflexivity|]. intros Hinit.
  apply cut_and; [simpl; lra|]. intros Hsum.
  exact (Distribution_get_variance_centered [1; 3] [0.5; 0.5] _ Hinit Hsum).
Defined.



Lemma ln_on_positive : ∀ x : R, 0 < x → ln x = ln x.
Proof. reflexivity. Defined.

Lemma entropy_from_probabilities_nonneg_witness :
  (∀ x, 0 < x → ln x = ln x)
  ∧ Forall (λ x, 0 <= x <= 1) [0.25; 0; 0.75]
  ∧ ∃ entropy,
      entropy_from_probabilities ln [0.25; 0; 0.75] = Val entropy
      ∧ 0 <= entropy.
Proof.
  apply cut_and; [exact ln_on_positive|]. intros Hln.
  apply cut_and; [repeat constructor; lra|]. intros Hp.
  exact (entropy_from_probabilities_nonneg ln Hln [0.25; 0; 0.75] Hp).
Defined.


Lemma call_set_of_bags_witness :
  ∃ self,
    docstring_weighted = Val self
    ∧ built self
    ∧ (∀ bag, bag ∈ [["y"; "y"; "y"]; ["x"; "y"; "x"]; ["y"; "y"; "y"]]%string
              ↔ bag ∈ take 2 docstring_bags)
    ∧ call self
        (Coll [["y"; "y"; "y"]; ["x"; "y"; "x"]; ["y"; "y"; "y"]]%string)
      = call self docstring_query.
Proof.
  docstring_self. intros Hbuilt. apply cut_and.
  { intros bag. simpl. rewrite !elem_of_cons, elem_of_nil. tauto. }
  intros Hsame. exact (call_set_of_bags _ _ _ Hbuilt Hsame).
Defined.


Lemma call_dict_witness :
  let coefficients : gmap (list string) R :=
    {[ ["x"; "y"; "x"]%string := 2 ]} in
  ∃ self,
    docstring_weighted = Val self
    ∧ built self
    ∧ (∀ bag, is_Some (coefficients !! bag) → bag ∈ bags self)
    ∧ ∃ vector, call self (Dict coefficients) = Val vector.
Proof.
  intros coefficients. docstring_self. intros Hbuilt. apply cut_and.
  { intros bag [x Hx]. revert bag x Hx.
    apply (bool_decide_unpack (map_Forall (λ bag _, bag ∈ _) coefficients)).
    vm_compute. exact I. }
  intros Hknown.
  destruct (call_dict _ coefficients Hbuilt Hknown) as (vector & Hcall & _).
  by exists vector.
Defined.

Lemma set_bag_weights_dict_witness :
  let mapping : gmap (list string) R := {[ ["x"; "y"; "x"]%string := 2 ]} in
  let unknown : gmap (list string) R := {[ ["z"]%string := 1 ]} in
  ∃ self,
    docstring_weighted = Val self
    ∧ built self
    ∧ is_Some (unknown !! ["z"%string])
    ∧ (["z"%string] ∉ bags self)
    ∧ set_bag_weights self (Dict unknown) set_bag_weights_silent_default
      = Raise ValueError
    ∧ (∀ bag, is_Some (mapping !! bag) → bag ∈ bags self)
    ∧ ∃ self',
        set_bag_weights self (Dict mapping) set_bag_weights_silent_default
        = Val self'
        ∧ ["y"; "y"; "y"]%string ∈ bags self
        ∧ get_bag_weight self' ["y"; "y"; "y"]%string = Val 0.
Proof.
  intros mapping unknown. docstring_self. intros _.
  apply cut_and; [by eexists|]. intros Hz.
  apply cut_and; [compute_done|]. intros Hunknown.
  match goal with
  | |- set_bag_weights ?self _ _ = _ ∧ _ =>
      destruct (set_bag_weights_dict self unknown) as [Hraise _];
      destruct (set_bag_weights_dict self mapping) as [_ Hreplace]
  end.
  split; [by apply (Hraise ["z"%string])|].
  apply cut_and.
  { intros bag [x Hx]. revert bag x Hx.
    apply (bool_decide_unpack (map_Forall (λ bag _, bag ∈ _) mapping)).
    vm_compute. exact I. }
  intros Hknown. destruct (Hreplace Hknown) as (self' & Hset & Hget).
  exists self'. split; [done|].
  apply cut_and; [compute_done|]. intros Hy.
  rewrite (Hget _ Hy). unfold mapping. by rewrite lookup_singleton_ne.
Defined.

Lemma set_weights_collection_witness :
  ∃ self,
    docstring_weighted = Val self
    ∧ built self
    ∧ ∃ self',
        set_item_weights self (Coll ["x"; "z"]%string)
          set_item_weights_silent_default = Val self'
        ∧ "x"%string ∈ items self
        ∧ get_item_weight self' "x"%string = Val 1
        ∧ "y"%string ∈ items self
        ∧ get_item_weight self' "y"%string = Val 0.
Proof.
  docstring_self. intros Hbuilt.
  destruct (proj1 (set_weights_collection _ Hbuilt) ["x"; "z"]%string)
    as (self' & Hset & Hget).
  exists self'. split; [done|].
  apply cut_and; [compute_done|]. intros Hx.
  split; [by rewrite (Hget _ Hx)|].
  apply cut_and; [compute_done|]. intros Hy.
  by rewrite (Hget _ Hy).
Defined.

Lemma count_bags_containing_item_known_witness :
  ∃ self,
    docstring_weighted = Val self
    ∧ built self
    ∧ "x"%string ∈ items self
    ∧ count_bags_containing_item self "x"%string
      = Val (containing self "x"%string)
    ∧ (1 ≤ containing self "x"%string ≤ length (bags self))%nat.
Proof.
  docstring_self. intros Hbuilt.
  apply cut_and; [compute_done|]. intros Hx.
  exact (count_bags_containing_item_known _ "x"%string Hbuilt Hx).
Defined.

Lemma init_default_weights_witness :
  ∃ self,
    init (Coll docstring_bags) None false = Val self
    ∧ "x"%string ∈ items self
    ∧ get_item_weight self "x"%string = Val 1
    ∧ ["y"; "y"; "y"]%string ∈ bags self
    ∧ get_bag_weight self ["y"; "y"; "y"]%string = Val 1.
Proof.
  destruct (init_default_weights (Coll docstring_bags))
    as (self & Hinit & Hitems & Hbags).
  exists self. split; [done|].
  pose proof (init_Val _ _ _ _ Hinit) as (Hb & Hi & _).
  apply cut_and; [rewrite Hi; compute_done|]. intros Hx.
  split; [by apply Hitems|].
  apply cut_and; [rewrite Hb; compute_done|]. intros Hy.
  by apply Hbags.
Defined.

Lemma init_tfidf_bag_weights_witness :
  ∃ self,
    init (Coll docstring_bags) None true = Val self
    ∧ ["y"; "y"; "y"]%string ∈ bags self
    ∧ ["y"; "y"; "y"]%string ≠ []
    ∧ get_bag_weight self ["y"; "y"; "y"]%string
      = Val (1 / INR (length ["y"; "y"; "y"]%string)).
Proof.
  pose proof (init_cases (Coll docstring_bags) None true) as Hinit.
  rewrite decide_False in Hinit
    by (intros (_ & _ & Hempty); revert Hempty; compute_done).
  destruct Hinit as [self Hinit]. exists self. split; [done|].
  pose proof (init_Val _ _ _ _ Hinit) as (Hb & _ & _).
  apply cut_and; [rewrite Hb; compute_done|]. intros Hy.
  exact (init_tfidf_bag_weights docstring_bags None self _ Hinit Hy).
Defined.

Lemma tfidf_item_in_every_bag_witness :
  ∃ self,
    init (Coll docstring_bags) None true = Val self
    ∧ "y"%string ∈ items self
    ∧ containing self "y"%string = length (bags self)
    ∧ (∀ bag, bag ∈ take 2 docstring_bags → bag ∈ bags self)
    ∧ ∃ vector index,
        call self (Coll (take 2 docstring_bags)) = Val vector
        ∧ index_map_get (items self) "y"%string = Some index
        ∧ vector !! index = Some 0.
Proof.
  pose proof (init_cases (Coll docstring_bags) None true) as Hinit.
  rewrite decide_False in Hinit
    by (intros (_ & _ & Hempty); revert Hempty; compute_done).
  destruct Hinit as [self Hinit]. exists self. split; [done|].
  pose proof (init_Val _ _ _ _ Hinit) as (Hb & Hi & _).
  apply cut_and; [rewrite Hi; compute_done|]. intros Hy.
  apply cut_and; [unfold containing; rewrite Hb; compute_done|]. intros Hall.
  apply cut_and; [rewrite Hb; apply Forall_forall; compute_done|].
  intros Hquery.
  exact (tfidf_item_in_every_bag (Coll docstring_bags) self "y"%string
           (take 2 docstring_bags) Hinit Hy Hall Hquery).
Defined.
